(** * Saylani Mass IT Hub: synchronisation and notification fan-out

    A shallow embedding of the portal's core JavaScript modules
    (notifications.js, lostfound.js, complaints.js, volunteer.js) and the
    properties of their real-time projections, keyword matching,
    read-state tracking, status workflow and registration guard.

    Firestore is an external service: its collections are finite maps from
    document identifiers to documents, every request to it may fail, and a
    schedule carried by the world decides which requests do.  The code of
    the portal is embedded over that interface in a small state-and-exception
    monad [Js], one definition per source function, under the source's
    names. *)

From stdpp Require Import gmap strings list fin_maps sorting pretty.
From Stdlib Require Import ZArith Ascii String.

Open Scope string_scope.

(* ===================================================================== *)
(** * JavaScript strings

    A string holds the UTF-8 bytes of the text.  [String_length] counts
    UTF-16 code units, as [length] does, and [trim] removes the code points
    JavaScript takes for white space.  [split], [includes] and [startsWith]
    compare bytes, which finds the occurrences that comparing code units
    finds.  [toLowerCase] folds the letters A to Z only, where JavaScript
    folds every cased letter: it is JavaScript's function on ASCII text
    ([ascii_text]), and what depends on the folding is stated for such
    text. *)

(** Text of ASCII characters only. *)
Fixpoint ascii_text (s : string) : bool :=
  match s with
  | EmptyString => true
  | String c r => (nat_of_ascii c <? 128)%nat && ascii_text r
  end.

Definition lower_char (c : ascii) : ascii :=
  let n := nat_of_ascii c in
  if (65 <=? n)%nat && (n <=? 90)%nat then ascii_of_nat (n + 32) else c.

Fixpoint toLowerCase (s : string) : string :=
  match s with
  | EmptyString => EmptyString
  | String c r => String (lower_char c) (toLowerCase r)
  end.

(** The UTF-16 code units a byte of UTF-8 stands for: one for an ASCII
    byte and for the first byte of a sequence of two or three bytes, two (a
    surrogate pair) for the first byte of a sequence of four, none for a
    continuation byte. *)
Definition code_units (c : ascii) : nat :=
  let n := nat_of_ascii c in
  if (n <? 128)%nat then 1
  else if (n <? 192)%nat then 0
  else if (n <? 240)%nat then 1
  else 2.

(** [s.length] *)
Fixpoint String_length (s : string) : nat :=
  match s with
  | EmptyString => 0
  | String c r => code_units c + String_length r
  end.

(** The white space and the line terminators of ECMAScript by their UTF-8
    bytes: U+0009 to U+000D and U+0020 take one byte, U+00A0 takes two,
    U+1680, U+2000 to U+200A, U+2028, U+2029, U+202F, U+205F, U+3000 and
    U+FEFF take three. *)
Definition white_space1 (a : ascii) : bool :=
  let x := nat_of_ascii a in
  ((9 <=? x) && (x <=? 13) || (x =? 32))%nat.

Definition white_space2 (a b : ascii) : bool :=
  ((nat_of_ascii a =? 194) && (nat_of_ascii b =? 160))%nat.

Definition white_space3 (a b c : ascii) : bool :=
  let x := nat_of_ascii a in
  let y := nat_of_ascii b in
  let z := nat_of_ascii c in
  ((x =? 225) && (y =? 154) && (z =? 128)
   || (x =? 226) && (y =? 128)
      && ((128 <=? z) && (z <=? 138) || (z =? 168) || (z =? 169) || (z =? 175))
   || (x =? 226) && (y =? 129) && (z =? 159)
   || (x =? 227) && (y =? 128) && (z =? 128)
   || (x =? 239) && (y =? 187) && (z =? 191))%nat.

(** Drop the white space a string starts with; the three tests say which
    one, two and three bytes are a white space. *)
Section Strip.
Context (w1 : ascii → bool) (w2 : ascii → ascii → bool)
  (w3 : ascii → ascii → ascii → bool).

Fixpoint strip (s : string) : string :=
  match s with
  | EmptyString => s
  | String a r =>
      if w1 a then strip r
      else match r with
           | EmptyString => s
           | String b r2 =>
               if w2 a b then strip r2
               else match r2 with
                    | EmptyString => s
                    | String c r3 => if w3 a b c then strip r3 else s
                    end
           end
  end.
End Strip.

Definition trimStart (s : string) : string :=
  strip white_space1 white_space2 white_space3 s.

(** The end of a string is the start of its reverse, where the bytes of a
    white space come last byte first. *)
Definition trimEnd (s : string) : string :=
  String.rev
    (strip white_space1 (λ b a, white_space2 a b)
       (λ c b a, white_space3 a b c) (String.rev s)).

(** [s.trim()] *)
Definition trim (s : string) : string := trimEnd (trimStart s).

(** [s.split(" ")]: cut at every single space; two adjacent spaces give an
    empty piece, and the empty string gives one empty piece. *)
Fixpoint split (s : string) : list string :=
  match s with
  | EmptyString => [EmptyString]
  | String c r =>
      if Ascii.eqb c " "%char then EmptyString :: split r
      else match split r with
           | [] => [String c EmptyString]
           | w :: ws => String c w :: ws
           end
  end.

Fixpoint startsWith (s kw : string) : bool :=
  match kw, s with
  | EmptyString, _ => true
  | String _ _, EmptyString => false
  | String k kr, String c r => Ascii.eqb c k && startsWith r kr
  end.

(** [s.includes(kw)]: [kw] occurs in [s] as a contiguous substring. *)
Fixpoint includes (s kw : string) : bool :=
  startsWith s kw ||
  match s with
  | EmptyString => false
  | String _ r => includes r kw
  end.

(** The double-quote character of the template literals. *)
Definition dquote : string := String (ascii_of_nat 34) EmptyString.

(** [Contains s t]: the specification of substring containment. *)
Definition Contains (s t : string) : Prop :=
  ∃ pre post : string, s = pre +:+ t +:+ post.

(* ===================================================================== *)
(** * Documents *)

(** A Firestore [Timestamp]: the whole seconds since the epoch and the
    nanoseconds within the second. *)
Record Timestamp := { seconds : Z; nanoseconds : Z }.

(** [createdAt] is [None] while the server timestamp of an in-flight write
    is still pending. *)
Record Notification := {
  n_userId : string;
  n_message : string;
  n_type : string;
  n_read : bool;
  n_createdAt : option Timestamp
}.

Record LostFoundItem := {
  lf_title : string;
  lf_description : string;
  lf_category : string;
  lf_location : string;
  lf_type : string;
  lf_imageURL : string;
  lf_userId : string;
  lf_userName : string;
  lf_status : string;
  lf_createdAt : option Timestamp
}.

Record Complaint := {
  c_title : string;
  c_category : string;
  c_description : string;
  c_location : string;
  c_urgency : string;
  c_userId : string;
  c_userName : string;
  c_status : string;
  c_createdAt : option Timestamp
}.

Record Volunteer := {
  v_name : string;
  v_email : string;
  v_phone : string;
  v_eventId : string;
  v_eventTitle : string;
  v_availability : string;
  v_skills : string;
  v_userId : string;
  v_userName : string;
  v_status : string;
  v_createdAt : option Timestamp
}.

Record User := { u_role : string }.

(** What the listeners need of a document: the field the query filters on
    and the field the client sorts on. *)
Class Document (A : Type) := {
  userId_of : A → string;
  createdAt_of : A → option Timestamp
}.

#[global] Instance notification_document : Document Notification :=
  {| userId_of := n_userId; createdAt_of := n_createdAt |}.
#[global] Instance lostfound_document : Document LostFoundItem :=
  {| userId_of := lf_userId; createdAt_of := lf_createdAt |}.
#[global] Instance complaint_document : Document Complaint :=
  {| userId_of := c_userId; createdAt_of := c_createdAt |}.
#[global] Instance volunteer_document : Document Volunteer :=
  {| userId_of := v_userId; createdAt_of := v_createdAt |}.

(* ===================================================================== *)
(** * The world: document store, request outcomes, console, toasts *)

Record Store := {
  notifications : gmap string Notification;
  lost_found_items : gmap string LostFoundItem;
  complaints : gmap string Complaint;
  volunteers : gmap string Volunteer;
  users : gmap string User
}.

Inductive JsError :=
| FirestoreError (code : string)
| TypeError (msg : string).

(** The outcome of one request to the store. *)
Inductive Outcome := Succeeds | Fails (code : string).

Record World := {
  db : Store;
  (** outcomes of the coming requests, in order; once the schedule is used
      up every further request succeeds *)
  pending : list Outcome;
  (** server clock *)
  now : Timestamp;
  (** [console.error] lines, newest first *)
  console : list (string * option JsError);
  (** whether the page has the element [toastContainer] *)
  toastContainer : bool;
  (** toasts shown, newest first: message and type *)
  toasts : list (string * string)
}.

Definition set_db (s : Store) (w : World) : World :=
  {| db := s; pending := pending w; now := now w; console := console w;
     toastContainer := toastContainer w; toasts := toasts w |}.

Definition set_pending (p : list Outcome) (w : World) : World :=
  {| db := db w; pending := p; now := now w; console := console w;
     toastContainer := toastContainer w; toasts := toasts w |}.

Definition add_console (l : string * option JsError) (w : World) : World :=
  {| db := db w; pending := pending w; now := now w; console := l :: console w;
     toastContainer := toastContainer w; toasts := toasts w |}.

Definition add_toast (t : string * string) (w : World) : World :=
  {| db := db w; pending := pending w; now := now w; console := console w;
     toastContainer := toastContainer w; toasts := t :: toasts w |}.

(* ===================================================================== *)
(** * The monad of JavaScript computations *)

Inductive Completion (A : Type) :=
| Normal (a : A)
| Thrown (e : JsError).
Arguments Normal {A} a.
Arguments Thrown {A} e.

Definition Js (A : Type) : Type := World → Completion A * World.

Definition ret {A} (a : A) : Js A := λ w, (Normal a, w).

Definition bind {A B} (m : Js A) (k : A → Js B) : Js B :=
  λ w, match m w with
       | (Normal a, w') => k a w'
       | (Thrown e, w') => (Thrown e, w')
       end.

Definition throw {A} (e : JsError) : Js A := λ w, (Thrown e, w).

(** [try { body } catch (error) { handler }]: what [body] did before it
    threw stays done. *)
Definition try_catch {A} (body : Js A) (handler : JsError → Js A) : Js A :=
  λ w, match body w with
       | (Normal a, w') => (Normal a, w')
       | (Thrown e, w') => handler e w'
       end.

Notation "'do' x <- c1 ; c2" := (bind c1 (λ x, c2))
  (at level 10, x name, c1 at level 100, c2 at level 200).
Notation "'exec' c1 ; c2" := (bind c1 (λ _, c2))
  (at level 10, c1 at level 100, c2 at level 200).

Definition console_error (msg : string) (e : option JsError) : Js unit :=
  λ w, (Normal tt, add_console (msg, e) w).

(** auth.js, [showToast]: nothing happens on a page without the toast
    container. *)
Definition showToast (msg type : string) : Js unit :=
  λ w, if toastContainer w then (Normal tt, add_toast (msg, type) w)
       else (Normal tt, w).

(** [forEach]: run the callback on every element, in order. *)
Fixpoint forEach {A} (l : list A) (f : A → Js unit) : Js unit :=
  match l with
  | [] => ret tt
  | x :: r => exec f x; forEach r f
  end.

(* ===================================================================== *)
(** * Firestore *)

(** A collection of the store, as a lens. *)
Record Collection (A : Type) := {
  coll_get : Store → gmap string A;
  coll_set : gmap string A → Store → Store
}.
Arguments coll_get {A} _ _.
Arguments coll_set {A} _ _ _.

Definition Notifications : Collection Notification :=
  {| coll_get := notifications;
     coll_set := λ m s, {| notifications := m;
                           lost_found_items := lost_found_items s;
                           complaints := complaints s;
                           volunteers := volunteers s;
                           users := users s |} |}.

Definition LostFoundItems : Collection LostFoundItem :=
  {| coll_get := lost_found_items;
     coll_set := λ m s, {| notifications := notifications s;
                           lost_found_items := m;
                           complaints := complaints s;
                           volunteers := volunteers s;
                           users := users s |} |}.

Definition Complaints : Collection Complaint :=
  {| coll_get := complaints;
     coll_set := λ m s, {| notifications := notifications s;
                           lost_found_items := lost_found_items s;
                           complaints := m;
                           volunteers := volunteers s;
                           users := users s |} |}.

Definition Volunteers : Collection Volunteer :=
  {| coll_get := volunteers;
     coll_set := λ m s, {| notifications := notifications s;
                           lost_found_items := lost_found_items s;
                           complaints := complaints s;
                           volunteers := m;
                           users := users s |} |}.

Definition Users : Collection User :=
  {| coll_get := users;
     coll_set := λ m s, {| notifications := notifications s;
                           lost_found_items := lost_found_items s;
                           complaints := complaints s;
                           volunteers := volunteers s;
                           users := m |} |}.

(** One round trip to the store: it takes the next outcome of the schedule
    and fails when that outcome says so. *)
Definition next_outcome (w : World) : Outcome :=
  default Succeeds (head (pending w)).

Definition consume (w : World) : World := set_pending (tail (pending w)) w.

Definition request : Js unit :=
  λ w, match next_outcome w with
       | Succeeds => (Normal tt, consume w)
       | Fails code => (Thrown (FirestoreError code), consume w)
       end.

(** [serverTimestamp()]: the server stamps the write with its clock. *)
Definition serverTimestamp : Js (option Timestamp) := λ w, (Normal (Some (now w)), w).

(** [addDoc(collection(db, c), d)]: store [d] under an identifier no
    document of the collection has, and return the identifier. *)
Definition addDoc {A} (c : Collection A) (d : A) : Js string :=
  exec request;
  λ w, let docs := coll_get c (db w) in
       let id := fresh (dom docs) in
       (Normal id, set_db (coll_set c (<[id := d]> docs) (db w)) w).

(** The documents a query [q] selects from a collection state. *)
Definition query_docs {A} (q : A → bool) (docs : gmap string A)
  : list (string * A) :=
  List.filter (λ d, q d.2) (map_to_list docs).

(** [getDocs(query(collection(db, c), ...))]: a point-in-time read. *)
Definition getDocs {A} (c : Collection A) (q : A → bool)
  : Js (list (string * A)) :=
  exec request;
  λ w, (Normal (query_docs q (coll_get c (db w))), w).

(** [updateDoc(doc(db, c, id), fields)]: merge [fields] into an existing
    document; a missing document is an error. *)
Definition updateDoc {A} (c : Collection A) (id : string) (fields : A → A)
  : Js unit :=
  exec request;
  λ w, let docs := coll_get c (db w) in
       match docs !! id with
       | Some d => (Normal tt, set_db (coll_set c (<[id := fields d]> docs) (db w)) w)
       | None => (Thrown (FirestoreError "not-found"), w)
       end.

(** [writeBatch(db)]: updates are collected and applied by [commit] all
    together or not at all. *)
Definition apply_update {A} (docs : option (gmap string A))
    (u : string * (A → A)) : option (gmap string A) :=
  match docs with
  | Some m => match m !! u.1 with
              | Some d => Some (<[u.1 := u.2 d]> m)
              | None => None
              end
  | None => None
  end.

Definition batch_commit {A} (c : Collection A) (batch : list (string * (A → A)))
  : Js unit :=
  exec request;
  λ w, match foldl apply_update (Some (coll_get c (db w))) batch with
       | Some m => (Normal tt, set_db (coll_set c m (db w)) w)
       | None => (Thrown (FirestoreError "not-found"), w)
       end.

(** [onSnapshot(q, next, error)]: the store calls [next] with the documents
    the query selects, once at the start and again on every change, and
    [error] when listening fails. *)
Record Subscription (A : Type) := onSnapshot {
  sub_query : A → bool;
  sub_next : list (string * A) → Js unit;
  sub_error : JsError → Js unit
}.
Arguments onSnapshot {A} _ _ _.
Arguments sub_query {A} _ _.
Arguments sub_next {A} _ _.
Arguments sub_error {A} _ _.

Inductive SnapshotEvent (A : Type) :=
| Delta (docs : gmap string A)
| ListenFailure (e : JsError).
Arguments Delta {A} docs.
Arguments ListenFailure {A} e.

Definition deliver {A} (s : Subscription A) (ev : SnapshotEvent A) : Js unit :=
  match ev with
  | Delta docs => sub_next s (query_docs (sub_query s) docs)
  | ListenFailure e => sub_error s e
  end.

(** [where("userId", "==", userId)] *)
Definition where_userId {A} `{Document A} (userId : string) (d : A) : bool :=
  String.eqb (userId_of d) userId.

(* ===================================================================== *)
(** * Array.prototype.sort

    The sort is stable; with a comparator that orders by a key, every stable
    sort gives the same array, so insertion from the right stands for it. *)

Section ArraySort.
Context {A : Type} (compareFn : A → A → Z).

Fixpoint sort_insert (x : A) (l : list A) : list A :=
  match l with
  | [] => [x]
  | y :: r => if (compareFn x y <=? 0)%Z then x :: y :: r
              else y :: sort_insert x r
  end.

Definition Array_sort (l : list A) : list A := foldr sort_insert [] l.
End ArraySort.

(** [createdAt?.seconds || 0] *)
Definition seconds_or_0 (createdAt : option Timestamp) : Z :=
  match createdAt with
  | Some t => if (seconds t =? 0)%Z then 0%Z else seconds t
  | None => 0%Z
  end.

(** The comparator every listener sorts with. *)
Definition newest_first {A} `{Document A} (a b : string * A) : Z :=
  let aTime := seconds_or_0 (createdAt_of a.2) in
  let bTime := seconds_or_0 (createdAt_of b.2) in
  (bTime - aTime)%Z.

(** [snapshot.docs.map(d => ({ id: d.id, ...d.data() }))]: a document of the
    projection is its identifier with its fields. *)
Definition with_id {A} (d : string * A) : string * A := (d.1, d.2).

(* ===================================================================== *)
(** * notifications.js *)

Definition createNotification (userId message type : string) : Js unit :=
  try_catch
    (do createdAt <- serverTimestamp;
     do _ <- addDoc Notifications
               {| n_userId := userId;
                  n_message := message;
                  n_type := type;
                  n_read := false;
                  n_createdAt := createdAt |};
     ret tt)
    (λ error, console_error "Create notification error:" (Some error)).


Definition mark_read (n : Notification) : Notification :=
  {| n_userId := n_userId n; n_message := n_message n; n_type := n_type n;
     n_read := true; n_createdAt := n_createdAt n |}.

Definition markAllRead (userId : string) : Js unit :=
  do snap <- getDocs Notifications
               (λ n, where_userId userId n && Bool.eqb (n_read n) false);
  let batch := map (λ d, (d.1, mark_read)) snap in
  batch_commit Notifications batch.

Definition markOneRead (notifId : string) : Js unit :=
  updateDoc Notifications notifId mark_read.

(* ===================================================================== *)
(** * lostfound.js *)

Definition match_found_message (title : string) : string :=
  "🔍 Possible match found! " +:+ dquote +:+ title +:+ dquote
  +:+ " may match your report.".

Definition match_check_message (newTitle : string) : string :=
  "🔍 Possible match for your item! Check " +:+ dquote +:+ newTitle
  +:+ dquote +:+ ".".

(** Extract keywords (words > 3 chars). *)
Definition keywords_of (newTitle : string) : list string :=
  List.filter (λ w, (3 <? String_length w)%nat) (split (toLowerCase newTitle)).

(** The callback of [allItems.forEach].  Its calls of [createNotification]
    are not awaited: the writes are issued in this order and each catches
    its own failure, so they are run here one after the other. *)
Definition match_item (newItemId newTitle userId : string)
    (keywords : list string) (docSnap : string * LostFoundItem) : Js unit :=
  if String.eqb docSnap.1 newItemId then ret tt
  else
    let item := docSnap.2 in
    let itemTitle := toLowerCase (lf_title item) in
    let matched := existsb (λ kw, includes itemTitle kw) keywords in
    if matched then
      exec createNotification userId
             (match_found_message (lf_title item)) "match";
      if negb (String.eqb (lf_userId item) userId) then
        createNotification (lf_userId item)
          (match_check_message newTitle) "match"
      else ret tt
    else ret tt.

Definition checkKeywordMatch (newItemId newTitle userId : string) : Js unit :=
  try_catch
    (let keywords := keywords_of newTitle in
     if (List.length keywords =? 0)%nat then ret tt
     else
       do allItems <- getDocs LostFoundItems (λ _, true);
       forEach allItems (match_item newItemId newTitle userId keywords))
    (λ err, console_error "Keyword match error:" (Some err)).

(** The form of a lost/found report; [fd_image] is the download URL the
    storage serves a chosen, non-empty file under. *)
Record LostFoundForm := {
  fd_title : string;
  fd_description : string;
  fd_category : string;
  fd_location : string;
  fd_type : string;
  fd_image : option string
}.

Definition submitLostFoundItem (userId userName : string)
    (formData : LostFoundForm) : Js bool :=
  try_catch
    (do imageURL <-
       match fd_image formData with
       | Some url => exec request (* uploadBytes *);
                     exec request (* getDownloadURL *);
                     ret url
       | None => ret ""
       end;
     do createdAt <- serverTimestamp;
     do itemRef <- addDoc LostFoundItems
                     {| lf_title := fd_title formData;
                        lf_description := fd_description formData;
                        lf_category := fd_category formData;
                        lf_location := fd_location formData;
                        lf_type := fd_type formData;
                        lf_imageURL := imageURL;
                        lf_userId := userId;
                        lf_userName := userName;
                        lf_status := "Pending";
                        lf_createdAt := createdAt |};
     exec showToast "Item reported successfully!" "success";
     exec checkKeywordMatch itemRef (fd_title formData) userId;
     ret true)
    (λ error,
       exec console_error "Lost & Found submit error:" (Some error);
       exec showToast "Failed to submit. Please try again." "error";
       ret false).


Definition set_lf_status (newStatus : string) (i : LostFoundItem)
  : LostFoundItem :=
  {| lf_title := lf_title i; lf_description := lf_description i;
     lf_category := lf_category i; lf_location := lf_location i;
     lf_type := lf_type i; lf_imageURL := lf_imageURL i;
     lf_userId := lf_userId i; lf_userName := lf_userName i;
     lf_status := newStatus; lf_createdAt := lf_createdAt i |}.

Definition lostfound_status_message (newStatus : string) : string :=
  "Your lost/found item status was updated to " +:+ dquote +:+ newStatus
  +:+ dquote +:+ ".".

Definition updateLostFoundStatus (itemId newStatus itemOwnerId : string)
  : Js unit :=
  try_catch
    (exec updateDoc LostFoundItems itemId (set_lf_status newStatus);
     exec createNotification itemOwnerId
            (lostfound_status_message newStatus) "status";
     showToast ("Status updated to " +:+ newStatus) "success")
    (λ error,
       exec console_error "Update status error:" (Some error);
       showToast "Failed to update status." "error").

(* ===================================================================== *)
(** * complaints.js *)


Definition set_c_status (newStatus : string) (c : Complaint) : Complaint :=
  {| c_title := c_title c; c_category := c_category c;
     c_description := c_description c; c_location := c_location c;
     c_urgency := c_urgency c; c_userId := c_userId c;
     c_userName := c_userName c; c_status := newStatus;
     c_createdAt := c_createdAt c |}.

Definition complaint_status_message (newStatus : string) : string :=
  "Your complaint status was updated to " +:+ dquote +:+ newStatus
  +:+ dquote +:+ ".".

Definition updateComplaintStatus (complaintId newStatus ownerId : string)
  : Js unit :=
  try_catch
    (exec updateDoc Complaints complaintId (set_c_status newStatus);
     exec createNotification ownerId
            (complaint_status_message newStatus) "complaint";
     showToast ("Status updated to " +:+ dquote +:+ newStatus +:+ dquote)
       "success")
    (λ error,
       exec console_error "❌ UPDATE COMPLAINT ERROR ===" None;
       exec console_error "Error:" (Some error);
       showToast "Failed to update status." "error").

(* ===================================================================== *)
(** * volunteer.js *)

Record VolunteerForm := {
  vf_name : string;
  vf_email : string;
  vf_phone : string;
  vf_eventId : string;
  vf_eventTitle : string;
  vf_availability : string;
  vf_skills : string
}.

(** The dynamic [import] of the Firestore module resolves to the module
    the file has already loaded statically, so it is no point of failure. *)
Definition registerVolunteer (userId userName : string)
    (formData : VolunteerForm) : Js bool :=
  try_catch
    (do snap <- getDocs Volunteers
                  (λ v, where_userId userId v
                        && String.eqb (v_eventId v) (vf_eventId formData));
     if negb (List.length snap =? 0)%nat then
       exec showToast "You already registered for this event!" "info";
       ret false
     else
       do createdAt <- serverTimestamp;
       do _ <- addDoc Volunteers
                 {| v_name := vf_name formData;
                    v_email := vf_email formData;
                    v_phone := vf_phone formData;
                    v_eventId := vf_eventId formData;
                    v_eventTitle := vf_eventTitle formData;
                    v_availability := vf_availability formData;
                    v_skills := vf_skills formData;
                    v_userId := userId;
                    v_userName := userName;
                    v_status := "Registered";
                    v_createdAt := createdAt |};
       exec showToast "Volunteer registration successful! 🎉" "success";
       ret true)
    (λ error,
       exec console_error "Volunteer registration error:" (Some error);
       exec showToast "Registration failed. Please try again." "error";
       ret false).


(* ===================================================================== *)
(** * admin dashboard: broadcast *)

(** The broadcast button, with [value] the text of the field
    [broadcastMsg]: one notification per account of role "user"; the read
    of the accounts is not guarded. *)
Definition broadcastAnnouncement (value : string) : Js unit :=
  let msg := trim value in
  if String.eqb msg "" then showToast "Please enter a message." "error"
  else
    do usersSnap <- getDocs Users (λ _, true);
    let audience := List.filter (λ d, String.eqb (u_role d.2) "user") usersSnap in
    exec forEach audience (λ d, createNotification d.1 msg "info");
    showToast "Announcement sent to all users!" "success".

(* ===================================================================== *)
(** * Operations and runs *)

(** The operations the views trigger. *)
Inductive Operation :=
| CreateNotification (userId message type : string)
| MarkAllRead (userId : string)
| MarkOneRead (notifId : string)
| SubmitLostFoundItem (userId userName : string) (formData : LostFoundForm)
| CheckKeywordMatch (newItemId newTitle userId : string)
| UpdateLostFoundStatus (itemId newStatus itemOwnerId : string)
| UpdateComplaintStatus (complaintId newStatus ownerId : string)
| RegisterVolunteer (userId userName : string) (formData : VolunteerForm)
| BroadcastAnnouncement (value : string).

Definition perform (op : Operation) : Js unit :=
  match op with
  | CreateNotification u m t => createNotification u m t
  | MarkAllRead u => markAllRead u
  | MarkOneRead i => markOneRead i
  | SubmitLostFoundItem u n f => exec submitLostFoundItem u n f; ret tt
  | CheckKeywordMatch i t u => checkKeywordMatch i t u
  | UpdateLostFoundStatus i s o => updateLostFoundStatus i s o
  | UpdateComplaintStatus i s o => updateComplaintStatus i s o
  | RegisterVolunteer u n f => exec registerVolunteer u n f; ret tt
  | BroadcastAnnouncement m => broadcastAnnouncement m
  end.

(** Between two operations the environment moves on: the store's coming
    request outcomes and its clock are anyone's guess. *)
Definition set_env (p : list Outcome) (t : Timestamp) (w : World) : World :=
  {| db := db w; pending := p; now := t; console := console w;
     toastContainer := toastContainer w; toasts := toasts w |}.

Definition step (w : World) (s : Operation * list Outcome * Timestamp) : World :=
  (perform s.1.1 (set_env s.1.2 s.2 w)).2.

Definition run (w : World) (steps : list (Operation * list Outcome * Timestamp))
  : World :=
  foldl step w steps.

(* ===================================================================== *)
(** * Vocabulary of the properties *)

(** The notification [createNotification] writes at server time [t]. *)
Definition new_notification (userId message type : string)
    (t : Timestamp) : Notification :=
  {| n_userId := userId; n_message := message; n_type := type;
     n_read := false; n_createdAt := Some t |}.

(** The registration [registerVolunteer] writes at server time [t]. *)
Definition registration (userId userName : string) (formData : VolunteerForm)
    (t : Timestamp) : Volunteer :=
  {| v_name := vf_name formData;
     v_email := vf_email formData;
     v_phone := vf_phone formData;
     v_eventId := vf_eventId formData;
     v_eventTitle := vf_eventTitle formData;
     v_availability := vf_availability formData;
     v_skills := vf_skills formData;
     v_userId := userId;
     v_userName := userName;
     v_status := "Registered";
     v_createdAt := Some t |}.

(** The store after a document is put under [id] in a collection. *)
Definition put {A} (c : Collection A) (id : string) (d : A) (s : Store)
  : Store :=
  coll_set c (<[id := d]> (coll_get c s)) s.

(** The identifier [addDoc] gives the next document of a collection. *)
Definition next_id {A} (c : Collection A) (s : Store) : string :=
  fresh (dom (coll_get c s)).



Definition succeeds (o : Outcome) : bool :=
  match o with Succeeds => true | Fails _ => false end.

(** The next [n] requests to the store succeed. *)
Definition requests_succeed (n : nat) (w : World) : Prop :=
  forallb succeeds (take n (pending w)) = true.

(** The comparator that orders by [key], largest first, and the order it
    sorts into. *)
Definition by_key {A} (key : A → Z) (a b : A) : Z := (key b - key a)%Z.
Definition before {A} (key : A → Z) (a b : A) : Prop := (key b ≤ key a)%Z.

(** The sequence a listener on [userId] computes from a collection state. *)
Definition projection {A} `{Document A} (userId : string)
    (docs : gmap string A) : list (string * A) :=
  Array_sort newest_first (map with_id (query_docs (where_userId userId) docs)).

(** The second a document is sorted under, and the documents of a list
    that are sorted under second [s], in the order of the list. *)
Definition second_of {A} `{Document A} (d : string * A) : Z :=
  seconds_or_0 (createdAt_of d.2).

Definition of_second {A} `{Document A} (s : Z) (l : list (string * A))
  : list (string * A) :=
  List.filter (λ d, (second_of d =? s)%Z) l.

(** What a projection handed to a view has to be: exactly the documents of
    [docs] owned by [userId], no identifier twice, by the second of
    [createdAt] descending with a missing timestamp counting as second
    zero, hence behind every document stamped in a positive second; the
    documents of one second come in the order of the snapshot. *)
Definition projection_ok {A} `{Document A} (userId : string)
    (docs : gmap string A) (out : list (string * A)) : Prop :=
  (∀ id d, (id, d) ∈ out ↔ docs !! id = Some d ∧ userId_of d = userId)
  ∧ NoDup out.*1
  ∧ StronglySorted (λ a b, (second_of b ≤ second_of a)%Z) out
  ∧ (∀ i j a b t,
       out !! i = Some a → out !! j = Some b →
       createdAt_of a.2 = None → createdAt_of b.2 = Some t →
       (0 < seconds t)%Z →
       j < i)
  ∧ (∀ s, of_second s out
          = of_second s (query_docs (where_userId userId) docs)).



(** What marking all of a recipient's notifications read does to one
    notification: the recipient's unread ones are flipped, the others are
    left alone. *)
Definition read_all (userId : string) (n : Notification) : Notification :=
  if where_userId userId n && Bool.eqb (n_read n) false then mark_read n
  else n.

(** The notifications only gained documents, all of them unread. *)
Definition adds_unread (m m' : gmap string Notification) : Prop :=
  ∀ id, match m !! id with
        | Some n => m' !! id = Some n
        | None => ∀ n', m' !! id = Some n' → n_read n' = false
        end.

(** The notifications kept their documents, some of them flipped to read. *)
Definition marks_read (m m' : gmap string Notification) : Prop :=
  ∀ id, match m !! id with
        | Some n => m' !! id = Some n ∨ m' !! id = Some (mark_read n)
        | None => m' !! id = None
        end.

(** A computation relates the notifications it starts with to those it
    leaves by [R], whether it returns or throws. *)
Definition preserves (R : relation (gmap string Notification)) {A}
    (c : Js A) : Prop :=
  ∀ w, R (notifications (db w)) (notifications (db (c w).2)).

(** A registration of [userId] for [eventId]. *)
Definition registered (userId eventId : string) (v : Volunteer) : Prop :=
  v_userId v = userId ∧ v_eventId v = eventId.

(** The titles of the records are ASCII text. *)
Definition ascii_titles (items : gmap string LostFoundItem) : Prop :=
  map_Forall (λ _ item, ascii_text (lf_title item) = true) items.

(* ===================================================================== *)
(** * Sample data *)

Definition empty_store : Store :=
  {| notifications := ∅; lost_found_items := ∅; complaints := ∅;
     volunteers := ∅; users := ∅ |}.

(** The start of second [s]. *)
Definition at_second (s : Z) : Timestamp :=
  {| seconds := s; nanoseconds := 0 |}.

Definition world_of (s : Store) (p : list Outcome) : World :=
  {| db := s; pending := p; now := at_second 1700000000; console := [];
     toastContainer := true; toasts := [] |}.

Definition sample_item (title userId : string) : LostFoundItem :=
  {| lf_title := title; lf_description := ""; lf_category := "Accessories";
     lf_location := "Campus"; lf_type := "lost"; lf_imageURL := "";
     lf_userId := userId; lf_userName := userId; lf_status := "Pending";
     lf_createdAt := Some (at_second 1699990000) |}.

Definition sample_form (title : string) : LostFoundForm :=
  {| fd_title := title; fd_description := ""; fd_category := "Accessories";
     fd_location := "Campus"; fd_type := "lost"; fd_image := None |}.

(** A store whose only lost/found record is bob's "Lost Keys". *)
Definition lost_keys_store : Store :=
  put LostFoundItems "k1" (sample_item "Lost Keys" "bob") empty_store.

(** A store with alice's new "Lost Brown Wallet" and bob's
    "Found Brown Wallet Downtown". *)
Definition wallet_store : Store :=
  put LostFoundItems "new" (sample_item "Lost Brown Wallet" "alice")
    (put LostFoundItems "old"
       (sample_item "Found Brown Wallet Downtown" "bob") empty_store).

Definition sample_complaint : Complaint :=
  {| c_title := "Broken light"; c_category := "Maintenance";
     c_description := ""; c_location := "Block A"; c_urgency := "Low";
     c_userId := "alice"; c_userName := "Alice"; c_status := "Submitted";
     c_createdAt := Some (at_second 1699990000) |}.

Definition complaint_store : Store :=
  put Complaints "c1" sample_complaint empty_store.

Definition sample_notification (userId : string) (read : bool)
    (t : option Timestamp) : Notification :=
  {| n_userId := userId; n_message := "hello"; n_type := "info";
     n_read := read; n_createdAt := t |}.

Definition inbox_store : Store :=
  put Notifications "n1" (sample_notification "alice" false (Some (at_second 5)))
    (put Notifications "n2" (sample_notification "alice" true None)
       (put Notifications "n3" (sample_notification "bob" false (Some (at_second 9)))
          empty_store)).


Definition sample_volunteer_form : VolunteerForm :=
  {| vf_name := "Alice"; vf_email := "alice@example.org"; vf_phone := "0300";
     vf_eventId := "health-camp"; vf_eventTitle := "Health Camp";
     vf_availability := "Weekends"; vf_skills := "First aid" |}.

(* ===================================================================== *)
(** * Rendering helpers *)

(** [s.replace(/c/g, rep)] for a pattern of one character. *)
Fixpoint replace_all (c : ascii) (rep s : string) : string :=
  match s with
  | EmptyString => EmptyString
  | String a r =>
      if Ascii.eqb a c then rep +:+ replace_all c rep r
      else String a (replace_all c rep r)
  end.

(** [escHtml]: the three replacements, in the source's order. *)
Definition escHtml (str : string) : string :=
  replace_all ">" "&gt;" (replace_all "<" "&lt;" (replace_all "&" "&amp;" str)).

(** What one character becomes, and the text read character by
    character. *)
Definition escape_char (c : ascii) : string :=
  if Ascii.eqb c "&" then "&amp;"
  else if Ascii.eqb c "<" then "&lt;"
  else if Ascii.eqb c ">" then "&gt;"
  else String c EmptyString.

Fixpoint escape (s : string) : string :=
  match s with
  | EmptyString => EmptyString
  | String c r => escape_char c +:+ escape r
  end.

(** The text an escaped string stands for. *)
Fixpoint unescape (s : string) : string :=
  match s with
  | EmptyString => EmptyString
  | String "&" (String "a" (String "m" (String "p" (String ";" r)))) =>
      String "&" (unescape r)
  | String "&" (String "l" (String "t" (String ";" r))) =>
      String "<" (unescape r)
  | String "&" (String "g" (String "t" (String ";" r))) =>
      String ">" (unescape r)
  | String c r => String c (unescape r)
  end.

(** [timeAgo(ts)] at the moment [nowMs = Date.now()]; [ts] is
    [ts.toDate().getTime()], in milliseconds, and [None] for a missing
    timestamp. *)
Definition timeAgo (ts : option Z) (nowMs : Z) : string :=
  match ts with
  | None => "just now"
  | Some t =>
      let diff := ((nowMs - t) / 1000)%Z in
      if (diff <? 60)%Z then "just now"
      else if (diff <? 3600)%Z then pretty (diff / 60)%Z +:+ "m ago"
      else if (diff <? 86400)%Z then pretty (diff / 3600)%Z +:+ "h ago"
      else pretty (diff / 86400)%Z +:+ "d ago"
  end.

(* ===================================================================== *)
(** * complaints.js: submission and the admin listener *)

Record ComplaintForm := {
  cf_title : string;
  cf_category : string;
  cf_description : string;
  cf_location : string;
  cf_urgency : string
}.

(** [error.code === code]; an error that is not the store's has no code. *)
Definition code_is (error : JsError) (code : string) : bool :=
  match error with
  | FirestoreError c => String.eqb c code
  | TypeError _ => false
  end.

Definition submitComplaint (userId userName : string)
    (formData : ComplaintForm) : Js bool :=
  try_catch
    (do createdAt <- serverTimestamp;
     let complaintData :=
       {| c_title := cf_title formData;
          c_category := cf_category formData;
          c_description := cf_description formData;
          c_location := cf_location formData;
          c_urgency := cf_urgency formData;
          c_userId := userId;
          c_userName := userName;
          c_status := "Submitted";
          c_createdAt := createdAt |} in
     do _ <- addDoc Complaints complaintData;
     exec showToast "Complaint submitted successfully!" "success";
     ret true)
    (λ error,
       exec console_error "❌ SUBMIT COMPLAINT ERROR ===" None;
       exec console_error "Error object:" (Some error);
       exec console_error "Error code:" (Some error);
       exec console_error "Error message:" (Some error);
       do errorMessage <-
         (if code_is error "permission-denied" then
            exec console_error
              "🔒 FIRESTORE RULES ISSUE - User cannot write to complaints collection"
              None;
            ret "Permission denied. Check Firestore security rules."
          else if code_is error "unauthenticated" then
            exec console_error
              "🔐 AUTHENTICATION ISSUE - User not authenticated" None;
            ret "Not logged in. Please login again."
          else if code_is error "unavailable" then
            exec console_error "🌐 NETWORK ISSUE - Firestore unavailable" None;
            ret "Network error. Check your internet connection."
          else ret "Failed to submit complaint.");
       exec showToast errorMessage "error";
       ret false).

Definition listenAllComplaints
    (renderFn : list (string * Complaint) → Js unit)
  : Subscription Complaint :=
  onSnapshot (λ _, true)
    (λ snapshot,
       let complaints := map with_id snapshot in
       let complaints := Array_sort newest_first complaints in
       renderFn complaints)
    (λ error,
       exec console_error "❌ LISTEN ALL COMPLAINTS ERROR ===" None;
       exec console_error "Error:" (Some error);
       exec console_error "Error code:" (Some error);
       exec (if code_is error "permission-denied" then
               exec console_error
                 "🔒 FIRESTORE RULES ISSUE - Admin cannot read all complaints"
                 None;
               showToast "Cannot load complaints. Check admin permissions."
                 "error"
             else ret tt);
       renderFn []).

(* ===================================================================== *)
(** * lostfound.js and volunteer.js: the admin listeners *)

Definition listenAllLostFound
    (renderFn : list (string * LostFoundItem) → Js unit)
  : Subscription LostFoundItem :=
  onSnapshot (λ _, true)
    (λ snapshot,
       let items := map with_id snapshot in
       let items := Array_sort newest_first items in
       renderFn items)
    (λ error,
       exec console_error "Listen all L&F error:" (Some error);
       renderFn []).

Definition listenAllVolunteers
    (renderFn : list (string * Volunteer) → Js unit)
  : Subscription Volunteer :=
  onSnapshot (λ _, true)
    (λ snapshot,
       let items := map with_id snapshot in
       let items := Array_sort newest_first items in
       renderFn items)
    (λ error,
       exec console_error "Listen all volunteers error:" (Some error);
       renderFn []).

(* ===================================================================== *)
(** * adminDashboard.js: the counters of the listeners *)

(** [items.filter(i => i.status !== "Resolved").length] *)
Definition open_complaints (items : list (string * Complaint)) : nat :=
  List.length
    (List.filter (λ i, negb (String.eqb (c_status i.2) "Resolved")) items).

(** [items.filter(i => i.status === "Pending").length] *)
Definition pending_items (items : list (string * LostFoundItem)) : nat :=
  List.length (List.filter (λ i, String.eqb (lf_status i.2) "Pending") items).

(** What the admin listeners hand over for a collection state. *)
Definition all_projection {A} `{Document A} (docs : gmap string A)
  : list (string * A) :=
  Array_sort newest_first (map with_id (query_docs (λ _, true) docs)).

(* ===================================================================== *)
(** * Vocabulary of the further properties *)

(** The complaint [submitComplaint] writes at server time [t]. *)
Definition new_complaint (userId userName : string) (formData : ComplaintForm)
    (t : Timestamp) : Complaint :=
  {| c_title := cf_title formData;
     c_category := cf_category formData;
     c_description := cf_description formData;
     c_location := cf_location formData;
     c_urgency := cf_urgency formData;
     c_userId := userId;
     c_userName := userName;
     c_status := "Submitted";
     c_createdAt := Some t |}.

(** The item [submitLostFoundItem] writes at server time [t]. *)
Definition new_item (userId userName : string) (formData : LostFoundForm)
    (t : Timestamp) : LostFoundItem :=
  {| lf_title := fd_title formData;
     lf_description := fd_description formData;
     lf_category := fd_category formData;
     lf_location := fd_location formData;
     lf_type := fd_type formData;
     lf_imageURL := default "" (fd_image formData);
     lf_userId := userId;
     lf_userName := userName;
     lf_status := "Pending";
     lf_createdAt := Some t |}.

(** The requests [submitLostFoundItem] makes before matching: two for an
    image, one for the item. *)
Definition submit_requests (formData : LostFoundForm) : nat :=
  match fd_image formData with Some _ => 3 | None => 1 end.

(** A computation relates the store it starts in to the store it leaves by
    [R], whether it returns or throws. *)
Definition preserves_db (R : relation Store) {A} (c : Js A) : Prop :=
  ∀ w, R (db w) (db (c w).2).

(** Two stores differ in their notifications at most. *)
Definition same_records (s s' : Store) : Prop :=
  lost_found_items s' = lost_found_items s
  ∧ complaints s' = complaints s
  ∧ volunteers s' = volunteers s
  ∧ users s' = users s.

(** The notifications only gained documents, all of them satisfying [P]. *)
Definition adds_only (P : Notification → Prop)
    (m m' : gmap string Notification) : Prop :=
  ∀ id, match m !! id with
        | Some n => m' !! id = Some n
        | None => ∀ n', m' !! id = Some n' → P n'
        end.

(** A record [d] other than the new item matches one of the keywords. *)
Definition matches (newItemId : string) (keywords : list string)
    (d : string * LostFoundItem) : bool :=
  negb (String.eqb d.1 newItemId)
  && existsb (λ kw, includes (toLowerCase (lf_title d.2)) kw) keywords.

Definition sample_complaint_form : ComplaintForm :=
  {| cf_title := "Broken light"; cf_category := "Maintenance";
     cf_description := "The corridor light is out"; cf_location := "Block A";
     cf_urgency := "Low" |}.

(** The operations of the views, with the submission of a complaint. *)
Inductive Action :=
| Core (op : Operation)
| SubmitComplaint (userId userName : string) (formData : ComplaintForm).

Definition act (a : Action) : Js unit :=
  match a with
  | Core op => perform op
  | SubmitComplaint u n f => exec submitComplaint u n f; ret tt
  end.

Definition act_step (w : World) (s : Action * list Outcome * Timestamp) : World :=
  (act s.1.1 (set_env s.1.2 s.2 w)).2.

Definition act_run (w : World) (steps : list (Action * list Outcome * Timestamp))
  : World :=
  foldl act_step w steps.

(** [R] is a preorder that every single write of the code respects: a new
    notification, a notification marked read, a new item, an item's status,
    a new complaint, a complaint's status, and a registration written when
    the user has none for the event. *)
Record respects (R : relation Store) : Prop := {
  respects_preorder : PreOrder R;
  respects_notify : ∀ s u m t z,
    R s (put Notifications (next_id Notifications s)
           (new_notification u m t z) s);
  respects_mark : ∀ s id n,
    notifications s !! id = Some n →
    R s (put Notifications id (mark_read n) s);
  respects_item : ∀ s i,
    R s (put LostFoundItems (next_id LostFoundItems s) i s);
  respects_item_status : ∀ s id i st,
    lost_found_items s !! id = Some i →
    R s (put LostFoundItems id (set_lf_status st i) s);
  respects_complaint : ∀ s u n f z,
    R s (put Complaints (next_id Complaints s) (new_complaint u n f z) s);
  respects_complaint_status : ∀ s id c st,
    complaints s !! id = Some c →
    R s (put Complaints id (set_c_status st c) s);
  respects_register : ∀ s u n f z,
    (∀ id v, volunteers s !! id = Some v →
             ¬ registered u (vf_eventId f) v) →
    R s (put Volunteers (next_id Volunteers s) (registration u n f z) s)
}.

(** No two registrations for the same user and event. *)
Definition unique_registrations (m : gmap string Volunteer) : Prop :=
  ∀ id1 id2 v1 v2,
    m !! id1 = Some v1 → m !! id2 = Some v2 →
    v_userId v1 = v_userId v2 → v_eventId v1 = v_eventId v2 →
    id1 = id2.

(** Going from [s] to [s'] keeps the registrations unique. *)
Definition keeps_unique (s s' : Store) : Prop :=
  unique_registrations (volunteers s) → unique_registrations (volunteers s').

(** How a store may have moved on: every document is still there under its
    identifier; a notification is as it was or marked read; an item or a
    complaint is as it was up to its status; registrations and accounts
    are as they were. *)
Definition evolves (s s' : Store) : Prop :=
  (∀ id n, notifications s !! id = Some n →
     notifications s' !! id = Some n
     ∨ notifications s' !! id = Some (mark_read n))
  ∧ (∀ id i, lost_found_items s !! id = Some i →
       ∃ st, lost_found_items s' !! id = Some (set_lf_status st i))
  ∧ (∀ id c, complaints s !! id = Some c →
       ∃ st, complaints s' !! id = Some (set_c_status st c))
  ∧ (∀ id v, volunteers s !! id = Some v → volunteers s' !! id = Some v)
  ∧ users s' = users s.

(** A notification the matching of [newTitle], submitted by [userId] as
    item [newItemId], may write: it is of type "match" and unread, and some
    other record of [items] whose lower-cased title contains a keyword of
    [newTitle] stands behind it; it tells the submitter of that record, or
    that record's owner, when the owner is someone else, of the new
    title. *)
Definition match_notice (items : gmap string LostFoundItem)
    (newItemId newTitle userId : string) (n : Notification) : Prop :=
  n_type n = "match" ∧ n_read n = false
  ∧ ∃ id item kw,
      items !! id = Some item ∧ id ≠ newItemId
      ∧ kw ∈ keywords_of newTitle
      ∧ Contains (toLowerCase (lf_title item)) kw
      ∧ ((n_userId n = userId
          ∧ n_message n = match_found_message (lf_title item))
         ∨ (lf_userId item ≠ userId
            ∧ n_userId n = lf_userId item
            ∧ n_message n = match_check_message newTitle)).

(** A store keeps its records and gains notifications satisfying [P]. *)
Definition notifies_only (P : Notification → Prop) (s s' : Store) : Prop :=
  same_records s s' ∧ adds_only P (notifications s) (notifications s').

(** The records of a snapshot that match and belong to [userId], and those
    that match and belong to someone else. *)
Definition own_matches (newItemId userId : string) (keywords : list string)
    (items : list (string * LostFoundItem)) : list (string * LostFoundItem) :=
  List.filter (λ d, matches newItemId keywords d
                    && String.eqb (lf_userId d.2) userId) items.

Definition other_matches (newItemId userId : string) (keywords : list string)
    (items : list (string * LostFoundItem)) : list (string * LostFoundItem) :=
  List.filter (λ d, matches newItemId keywords d
                    && negb (String.eqb (lf_userId d.2) userId)) items.

(** The notifications one record of the snapshot calls for. *)
Definition notices_due (newItemId userId : string) (keywords : list string)
    (d : string * LostFoundItem) : nat :=
  if matches newItemId keywords d
  then (if String.eqb (lf_userId d.2) userId then 1 else 2)
  else 0.


(** The accounts a broadcast goes to. *)
Definition audience (accounts : gmap string User) : list (string * User) :=
  List.filter (λ d, String.eqb (u_role d.2) "user") (map_to_list accounts).


Definition sample_accounts : Store :=
  put Users "u1" {| u_role := "user" |}
    (put Users "a1" {| u_role := "admin" |}
       (put Users "u2" {| u_role := "user" |} empty_store)).

(** notifications.js, [renderNotificationBell], and the dashboards'
    notification callback: [notifications.filter(n => !n.read).length]. *)
Definition unread_count (notifications : list (string * Notification)) : nat :=
  List.length (List.filter (λ n, negb (n_read n.2)) notifications).

(* ===================================================================== *)
(** * How the store's operations run *)

Lemma addDoc_run {A} (c : Collection A) (d : A) w :
  addDoc c d w =
  match next_outcome w with
  | Succeeds => (Normal (next_id c (db w)),
                 set_db (put c (next_id c (db w)) d (db w)) (consume w))
  | Fails code => (Thrown (FirestoreError code), consume w)
  end.
Proof. unfold addDoc, bind, request. by destruct (next_outcome w). Qed.

Lemma getDocs_run {A} (c : Collection A) q w :
  getDocs c q w =
  match next_outcome w with
  | Succeeds => (Normal (query_docs q (coll_get c (db w))), consume w)
  | Fails code => (Thrown (FirestoreError code), consume w)
  end.
Proof. unfold getDocs, bind, request. by destruct (next_outcome w). Qed.

Lemma updateDoc_run {A} (c : Collection A) id f w :
  updateDoc c id f w =
  match next_outcome w with
  | Succeeds =>
      match coll_get c (db w) !! id with
      | Some d => (Normal tt, set_db (put c id (f d) (db w)) (consume w))
      | None => (Thrown (FirestoreError "not-found"), consume w)
      end
  | Fails code => (Thrown (FirestoreError code), consume w)
  end.
Proof. unfold updateDoc, bind, request. by destruct (next_outcome w). Qed.

Lemma createNotification_run u m t w :
  createNotification u m t w =
  match next_outcome w with
  | Succeeds =>
      (Normal tt,
       set_db (put Notifications (next_id Notifications (db w))
                 (new_notification u m t (now w)) (db w)) (consume w))
  | Fails code =>
      (Normal tt,
       add_console ("Create notification error:", Some (FirestoreError code))
         (consume w))
  end.
Proof.
  unfold createNotification, try_catch, bind, serverTimestamp.
  rewrite addDoc_run. by destruct (next_outcome w).
Qed.

Lemma requests_succeed_S n w :
  requests_succeed (S n) w →
  next_outcome w = Succeeds ∧ requests_succeed n (consume w).
Proof.
  unfold requests_succeed, next_outcome, consume. simpl.
  destruct (pending w) as [|o p]; simpl.
  - intros _. split; [done | by destruct n].
  - destruct o; simpl; [done | discriminate].
Qed.

Lemma coll_set_get_notifications s :
  coll_set Notifications (notifications s) s = s.
Proof. by destruct s. Qed.

Lemma contains_intro (pre t post : string) : Contains (pre +:+ t +:+ post) t.
Proof. by exists pre, post. Qed.

(* ===================================================================== *)
(** * createNotification *)

(** C7. [createNotification] returns normally for every recipient, message
    and category, in every world, whatever the store answers to the write:
    when the write succeeds the notification is stored and nothing is
    logged; when it fails the error is caught and logged on the console and
    the store is left as it was.  No failure reaches the caller. *)
Theorem createNotification_never_propagates
    (userId message type : string) (w : World) :
  ∃ w', createNotification userId message type w = (Normal tt, w')
    ∧ match next_outcome w with
      | Succeeds =>
          db w' = put Notifications (next_id Notifications (db w))
                    (new_notification userId message type (now w)) (db w)
          ∧ console w' = console w
      | Fails code =>
          db w' = db w
          ∧ console w' = ("Create notification error:",
                          Some (FirestoreError code)) :: console w
      end.
Proof.
  rewrite createNotification_run.
  destruct (next_outcome w); eexists; (split; [reflexivity | by split]).
Qed.

(* ===================================================================== *)
(** * Status workflow *)

Lemma updateComplaintStatus_thrown id newStatus owner w e w1 :
  updateDoc Complaints id (set_c_status newStatus) w = (Thrown e, w1) →
  updateComplaintStatus id newStatus owner w =
  showToast "Failed to update status." "error"
    (add_console ("Error:", Some e)
       (add_console ("❌ UPDATE COMPLAINT ERROR ===", None) w1)).
Proof.
  intros H. unfold updateComplaintStatus, try_catch, bind at 1. by rewrite H.
Qed.

Lemma updateLostFoundStatus_thrown id newStatus owner w e w1 :
  updateDoc LostFoundItems id (set_lf_status newStatus) w = (Thrown e, w1) →
  updateLostFoundStatus id newStatus owner w =
  showToast "Failed to update status." "error"
    (add_console ("Update status error:", Some e) w1).
Proof.
  intros H. unfold updateLostFoundStatus, try_catch, bind at 1. by rewrite H.
Qed.

Lemma updateDoc_thrown {A} (c : Collection A) id f w e w1 :
  updateDoc c id f w = (Thrown e, w1) → w1 = consume w.
Proof.
  rewrite updateDoc_run.
  destruct (next_outcome w); [destruct (coll_get c (db w) !! id)|]; congruence.
Qed.

Lemma showToast_run msg type w :
  ∃ w', showToast msg type w = (Normal tt, w')
        ∧ db w' = db w ∧ pending w' = pending w ∧ console w' = console w.
Proof. unfold showToast. destruct (toastContainer w); by eexists. Qed.

(** C9. When the status write of [updateComplaintStatus] or of
    [updateLostFoundStatus] throws, the function catches the error, logs
    it and returns normally; the store is unchanged, so no notification
    was created, and the failed write is the only request that was made
    of the store, so none was attempted. *)
Theorem failed_status_update_sends_no_notification
    (id newStatus owner : string) (w w1 : World) (e : JsError) :
  (updateDoc Complaints id (set_c_status newStatus) w = (Thrown e, w1) →
   ∃ w', updateComplaintStatus id newStatus owner w = (Normal tt, w')
     ∧ db w' = db w
     ∧ pending w' = tail (pending w)
     ∧ console w' = ("Error:", Some e)
                    :: ("❌ UPDATE COMPLAINT ERROR ===", None) :: console w)
  ∧
  (updateDoc LostFoundItems id (set_lf_status newStatus) w = (Thrown e, w1) →
   ∃ w', updateLostFoundStatus id newStatus owner w = (Normal tt, w')
     ∧ db w' = db w
     ∧ pending w' = tail (pending w)
     ∧ console w' = ("Update status error:", Some e) :: console w).
Proof.
  split; intros H; pose proof (updateDoc_thrown _ _ _ _ _ _ H) as ->.
  - rewrite (updateComplaintStatus_thrown _ _ _ _ _ _ H).
    edestruct showToast_run as (w' & -> & Hdb & Hp & Hc).
    exists w'. by rewrite Hdb, Hp, Hc.
  - rewrite (updateLostFoundStatus_thrown _ _ _ _ _ _ H).
    edestruct showToast_run as (w' & -> & Hdb & Hp & Hc).
    exists w'. by rewrite Hdb, Hp, Hc.
Qed.

Lemma next_id_fresh {A} (c : Collection A) (s : Store) :
  coll_get c s !! next_id c s = None.
Proof. apply not_elem_of_dom, is_fresh. Qed.

Lemma updateComplaintStatus_ok id newStatus owner c w :
  complaints (db w) !! id = Some c →
  requests_succeed 2 w →
  ∃ w', updateComplaintStatus id newStatus owner w = (Normal tt, w')
    ∧ db w' = put Notifications (next_id Notifications (db w))
                (new_notification owner (complaint_status_message newStatus)
                   "complaint" (now w))
                (put Complaints id (set_c_status newStatus c) (db w)).
Proof.
  intros Hc (H1 & (H2 & _)%requests_succeed_S)%requests_succeed_S.
  unfold updateComplaintStatus, try_catch, bind.
  rewrite updateDoc_run, H1. simpl. rewrite Hc.
  rewrite createNotification_run.
  change (next_outcome (set_db _ (consume w))) with (next_outcome (consume w)).
  rewrite H2.
  edestruct showToast_run as (w' & -> & Hdb & _). by exists w'.
Qed.

(** C6. A complaint in status "Submitted" can be set to "Resolved" in one
    step, without passing through "In Progress": with the store answering
    the two writes, [updateComplaintStatus] returns normally, the complaint
    now has status "Resolved" and is otherwise as it was, and the
    notifications gained exactly one document, unread, addressed to the
    complaint's owner, whose message contains "Resolved". *)
Theorem complaint_submitted_to_resolved
    (id : string) (c : Complaint) (w : World) :
  complaints (db w) !! id = Some c →
  c_status c = "Submitted" →
  requests_succeed 2 w →
  ∃ w' nid n,
    updateComplaintStatus id "Resolved" (c_userId c) w = (Normal tt, w')
    ∧ complaints (db w') = <[id := set_c_status "Resolved" c]> (complaints (db w))
    ∧ c_status (set_c_status "Resolved" c) = "Resolved"
    ∧ notifications (db w) !! nid = None
    ∧ notifications (db w') = <[nid := n]> (notifications (db w))
    ∧ n_userId n = c_userId c
    ∧ n_read n = false
    ∧ Contains (n_message n) "Resolved".
Proof.
  intros Hc _ Hreq.
  destruct (updateComplaintStatus_ok id "Resolved" (c_userId c) c w Hc Hreq)
    as (w' & Hrun & Hdb).
  exists w', (next_id Notifications (db w)),
    (new_notification (c_userId c) (complaint_status_message "Resolved")
       "complaint" (now w)).
  split; [done|]. rewrite Hdb. simpl.
  repeat split; try done.
  - apply (next_id_fresh Notifications).
  - apply (contains_intro ("Your complaint status was updated to " +:+ dquote)
             "Resolved" (dquote +:+ ".")).
Qed.

(* ===================================================================== *)
(** * Queries *)

Lemma elem_of_query_docs {A} (q : A → bool) (docs : gmap string A) id d :
  (id, d) ∈ query_docs q docs ↔ docs !! id = Some d ∧ q d = true.
Proof.
  unfold query_docs.
  rewrite list_elem_of_In, filter_In, <- list_elem_of_In, elem_of_map_to_list.
  done.
Qed.

Lemma query_docs_nil {A} (q : A → bool) (docs : gmap string A) :
  query_docs q docs = [] ↔ ∀ id d, docs !! id = Some d → q d = false.
Proof.
  split.
  - intros Hnil id d Hd. destruct (q d) eqn:Hq; [|done].
    assert ((id, d) ∈ query_docs q docs) as Hin by by apply elem_of_query_docs.
    rewrite Hnil in Hin. by apply elem_of_nil in Hin.
  - intros Hall. destruct (query_docs q docs) as [|[id d] l] eqn:Hl; [done|].
    assert ((id, d) ∈ query_docs q docs) as [Hd Hq]%elem_of_query_docs
      by (rewrite Hl; left).
    rewrite (Hall _ _ Hd) in Hq. discriminate.
Qed.

Arguments showToast : simpl never.
Arguments createNotification : simpl never.

Ltac run_toast :=
  simpl;
  match goal with
  | |- context [showToast ?m ?t ?w] =>
      let w' := fresh "w'" in
      let Hst := fresh "Hst" in
      let Hdb := fresh "Hdb" in
      destruct (showToast_run m t w) as (w' & Hst & Hdb & _);
      rewrite Hst; clear Hst
  end.

(* ===================================================================== *)
(** * Registration guard *)

Lemma registered_query userId eventId v :
  where_userId userId v && String.eqb (v_eventId v) eventId = true
  ↔ registered userId eventId v.
Proof.
  unfold where_userId, registered. simpl.
  rewrite andb_true_iff, !String.eqb_eq. done.
Qed.

Lemma not_registered_query userId eventId (docs : gmap string Volunteer) :
  (∀ id v, docs !! id = Some v → ¬ registered userId eventId v) →
  query_docs (λ v, where_userId userId v && String.eqb (v_eventId v) eventId)
    docs = [].
Proof.
  intros Hnone. apply query_docs_nil. intros id v Hv.
  apply not_true_is_false. rewrite registered_query. by apply (Hnone id).
Qed.

Lemma registerVolunteer_read_fails userId userName formData w code :
  next_outcome w = Fails code →
  ∃ w', registerVolunteer userId userName formData w = (Normal false, w')
        ∧ db w' = db w.
Proof.
  intros H. unfold registerVolunteer, try_catch, bind.
  rewrite getDocs_run, H. run_toast. by exists w'.
Qed.

Lemma registerVolunteer_duplicate userId userName formData w id v :
  next_outcome w = Succeeds →
  volunteers (db w) !! id = Some v →
  registered userId (vf_eventId formData) v →
  ∃ w', registerVolunteer userId userName formData w = (Normal false, w')
        ∧ db w' = db w.
Proof.
  intros H Hv Hreg. unfold registerVolunteer, try_catch, bind.
  rewrite getDocs_run, H.
  destruct (query_docs _ _) as [|x l] eqn:Hq.
  - exfalso. eapply query_docs_nil in Hq; [|exact Hv].
    apply registered_query in Hreg. simpl in Hq. congruence.
  - simpl. run_toast. by exists w'.
Qed.

Lemma registerVolunteer_write_fails userId userName formData w code :
  next_outcome w = Succeeds →
  (∀ id v, volunteers (db w) !! id = Some v →
           ¬ registered userId (vf_eventId formData) v) →
  next_outcome (consume w) = Fails code →
  ∃ w', registerVolunteer userId userName formData w = (Normal false, w')
        ∧ db w' = db w.
Proof.
  intros H Hnone H2. unfold registerVolunteer, try_catch, bind.
  rewrite getDocs_run, H. simpl.
  rewrite (not_registered_query _ _ _ Hnone). simpl.
  unfold serverTimestamp. rewrite addDoc_run, H2. run_toast. by exists w'.
Qed.

Lemma registerVolunteer_accepts userId userName formData w :
  (∀ id v, volunteers (db w) !! id = Some v →
           ¬ registered userId (vf_eventId formData) v) →
  requests_succeed 2 w →
  ∃ w', registerVolunteer userId userName formData w = (Normal true, w')
        ∧ db w' = put Volunteers (next_id Volunteers (db w))
                    (registration userId userName formData (now w)) (db w).
Proof.
  intros Hnone (H1 & (H2 & _)%requests_succeed_S)%requests_succeed_S.
  unfold registerVolunteer, try_catch, bind.
  rewrite getDocs_run, H1. simpl.
  rewrite (not_registered_query _ _ _ Hnone). simpl.
  unfold serverTimestamp. rewrite addDoc_run, H2. run_toast. by exists w'.
Qed.

Lemma registerVolunteer_rejects_registered userId userName formData w id v :
  volunteers (db w) !! id = Some v →
  registered userId (vf_eventId formData) v →
  ∃ w', registerVolunteer userId userName formData w = (Normal false, w')
        ∧ db w' = db w.
Proof.
  intros Hv Hreg. destruct (next_outcome w) eqn:H.
  - by eapply registerVolunteer_duplicate.
  - by eapply registerVolunteer_read_fails.
Qed.

(** C5. Two calls of [registerVolunteer] for the same user and event, one
    after the other: when the user has no registration for the event yet
    and the store answers the first call's read and write, the first call
    returns true and the store gains exactly one registration, the one of
    the form; any later call for the same user and event made on that
    store returns false and leaves the store as it is, whatever the store
    answers. *)
Theorem register_twice_sequentially
    (userId userName : string) (formData : VolunteerForm) (w : World) :
  (∀ id v, volunteers (db w) !! id = Some v →
           ¬ registered userId (vf_eventId formData) v) →
  requests_succeed 2 w →
  ∃ w1 rid,
    registerVolunteer userId userName formData w = (Normal true, w1)
    ∧ volunteers (db w) !! rid = None
    ∧ db w1 = put Volunteers rid
                (registration userId userName formData (now w)) (db w)
    ∧ ∀ userName' formData' w2,
        vf_eventId formData' = vf_eventId formData →
        db w2 = db w1 →
        ∃ w3, registerVolunteer userId userName' formData' w2
              = (Normal false, w3)
              ∧ db w3 = db w1.
Proof.
  intros Hnone Hreq.
  destruct (registerVolunteer_accepts _ userName _ _ Hnone Hreq)
    as (w1 & Hrun & Hdb).
  exists w1, (next_id Volunteers (db w)).
  split; [done|]. split; [apply (next_id_fresh Volunteers)|].
  split; [done|].
  intros userName' formData' w2 Hev Hw2.
  destruct (registerVolunteer_rejects_registered userId userName' formData' w2
              (next_id Volunteers (db w))
              (registration userId userName formData (now w)))
    as (w3 & Hrun3 & Hdb3).
  - rewrite Hw2, Hdb. simpl. apply lookup_insert_eq.
  - by rewrite Hev.
  - exists w3. by rewrite Hrun3, Hdb3.
Qed.

(** C10. [registerVolunteer] never throws: in every world it returns a
    boolean.  It returns false, with the store unchanged, when the
    duplicate check's read fails, when the check passes and the write
    fails, and when the user is already registered for the event: the
    result alone does not tell a rejection from a store failure. *)
Theorem registerVolunteer_never_throws
    (userId userName : string) (formData : VolunteerForm) (w : World) :
  (∃ b w', registerVolunteer userId userName formData w = (Normal b, w'))
  ∧ (∀ code, next_outcome w = Fails code →
       ∃ w', registerVolunteer userId userName formData w = (Normal false, w')
             ∧ db w' = db w)
  ∧ (∀ code,
       next_outcome w = Succeeds →
       (∀ id v, volunteers (db w) !! id = Some v →
                ¬ registered userId (vf_eventId formData) v) →
       next_outcome (consume w) = Fails code →
       ∃ w', registerVolunteer userId userName formData w = (Normal false, w')
             ∧ db w' = db w)
  ∧ (∀ id v,
       next_outcome w = Succeeds →
       volunteers (db w) !! id = Some v →
       registered userId (vf_eventId formData) v →
       ∃ w', registerVolunteer userId userName formData w = (Normal false, w')
             ∧ db w' = db w).
Proof.
  split; [|split; [|split]].
  - unfold registerVolunteer, try_catch, bind.
    rewrite getDocs_run. destruct (next_outcome w).
    + destruct (query_docs _ _); simpl.
      * unfold serverTimestamp. rewrite addDoc_run.
        destruct (next_outcome (consume w)); run_toast; by eexists _, _.
      * run_toast. by eexists _, _.
    + run_toast. by eexists _, _.
  - intros code. apply registerVolunteer_read_fails.
  - intros code. apply registerVolunteer_write_fails.
  - intros id v H Hv Hreg. by eapply registerVolunteer_duplicate.
Qed.

(* ===================================================================== *)
(** * Read state *)

(** A batch of updates of documents that exist, no document twice, applies
    the update to exactly those documents. *)
Lemma batch_updates_apply {A} (f : A → A) (l : list (string * A))
    (m : gmap string A) :
  NoDup l.*1 →
  (∀ id, id ∈ l.*1 → is_Some (m !! id)) →
  ∃ m', foldl apply_update (Some m) (map (λ d, (d.1, f)) l) = Some m'
        ∧ ∀ i, m' !! i = if decide (i ∈ l.*1) then f <$> m !! i else m !! i.
Proof.
  revert m. induction l as [|[id d] l IH]; intros m Hnd Hex.
  - exists m. split; [done|]. intros i. by rewrite decide_False by apply not_elem_of_nil.
  - apply NoDup_cons in Hnd as [Hid Hnd].
    destruct (Hex id) as [d0 Hd0]; [left|].
    destruct (IH (<[id := f d0]> m) Hnd) as (m' & Hfold & Hlook).
    { intros id' Hin. apply lookup_insert_is_Some'. right. apply Hex. by right. }
    exists m'. split.
    { simpl. rewrite Hd0. exact Hfold. }
    intros i. rewrite Hlook. simpl in *.
    destruct (decide (i = id)) as [->|Hne].
    + rewrite (decide_False _ _ Hid), lookup_insert_eq, Hd0.
      rewrite decide_True by left. done.
    + rewrite lookup_insert_ne by done.
      destruct (decide (i ∈ l.*1)) as [Hin|Hin].
      * by rewrite decide_True by by right.
      * rewrite decide_False; [done|]. by intros [?|?]%elem_of_cons.
Qed.

Lemma List_filter_sublist {A} (p : A → bool) (l : list A) :
  sublist (List.filter p l) l.
Proof.
  induction l as [|x l IH]; simpl; [constructor|].
  destruct (p x); by constructor.
Qed.

Lemma query_docs_NoDup {A} (q : A → bool) (docs : gmap string A) :
  NoDup (query_docs q docs).*1.
Proof.
  apply (sublist_NoDup _ (map_to_list docs).*1).
  - apply NoDup_fst_map_to_list.
  - apply fmap_sublist, List_filter_sublist.
Qed.

Lemma elem_of_query_docs_fst {A} (q : A → bool) (docs : gmap string A) id :
  id ∈ (query_docs q docs).*1 ↔ ∃ d, docs !! id = Some d ∧ q d = true.
Proof.
  rewrite list_elem_of_fmap. split.
  - intros ([id' d] & -> & Hin%elem_of_query_docs). by exists d.
  - intros (d & Hd & Hq). exists (id, d). split; [done|].
    by apply elem_of_query_docs.
Qed.

Lemma markAllRead_run userId w :
  if succeeds (next_outcome w) && succeeds (next_outcome (consume w)) then
    ∃ w' m', markAllRead userId w = (Normal tt, w')
      ∧ db w' = coll_set Notifications m' (db w)
      ∧ (∀ i, m' !! i = read_all userId <$> notifications (db w) !! i)
  else
    ∃ e w', markAllRead userId w = (Thrown e, w') ∧ db w' = db w.
Proof.
  unfold markAllRead, bind. rewrite getDocs_run.
  destruct (next_outcome w) eqn:H1; simpl; [|by eexists _, _].
  unfold batch_commit, bind, request.
  destruct (next_outcome (consume w)) eqn:H2; simpl; [|by eexists _, _].
  set (q := λ n : Notification, where_userId userId n && Bool.eqb (n_read n) false).
  destruct (batch_updates_apply mark_read (query_docs q (notifications (db w)))
              (notifications (db w))) as (m' & Hfold & Hlook).
  { apply query_docs_NoDup. }
  { intros id (d & Hd & _)%elem_of_query_docs_fst. by exists d. }
  exists (set_db (coll_set Notifications m' (db w)) (consume (consume w))), m'.
  rewrite Hfold. repeat split; try done.
  intros i. rewrite Hlook. unfold read_all.
  destruct (notifications (db w) !! i) as [n|] eqn:Hn.
  - simpl.
    change (where_userId userId n && Bool.eqb (n_read n) false) with (q n).
    destruct (q n) eqn:Hq.
    + rewrite decide_True; [done|]. apply elem_of_query_docs_fst. by exists n.
    + rewrite decide_False; [done|].
      intros (d & Hd & Hqd)%elem_of_query_docs_fst. congruence.
  - by destruct (decide _).
Qed.

Lemma read_all_read userId n :
  n_userId n = userId → n_read (read_all userId n) = true.
Proof.
  intros <-. unfold read_all, where_userId. simpl.
  rewrite String.eqb_refl. simpl. by destruct (n_read n) eqn:Hr.
Qed.

Lemma read_all_userId userId n : n_userId (read_all userId n) = n_userId n.
Proof. unfold read_all. by destruct (_ && _). Qed.

Lemma read_all_id userId n :
  (n_userId n = userId → n_read n = true) → read_all userId n = n.
Proof.
  intros H. unfold read_all, where_userId. simpl.
  destruct (String.eqb_spec (n_userId n) userId) as [Hu|Hu]; [|done].
  by rewrite (H Hu).
Qed.

(* ===================================================================== *)
(** * What an operation can do to the notifications *)

Section Preserves.
Context (R : relation (gmap string Notification)) `{!PreOrder R}.

Lemma preserves_same {A} (c : Js A) :
  (∀ w, notifications (db (c w).2) = notifications (db w)) →
  preserves R c.
Proof. intros H w. by rewrite H. Qed.

Lemma preserves_ret {A} (a : A) : preserves R (ret a).
Proof. by apply preserves_same. Qed.

Lemma preserves_bind {A B} (m : Js A) (k : A → Js B) :
  preserves R m → (∀ a, preserves R (k a)) → preserves R (bind m k).
Proof.
  intros Hm Hk w. unfold bind. specialize (Hm w).
  destruct (m w) as [[a|e] w']; simpl in *; [|done].
  etrans; [exact Hm | apply Hk].
Qed.

Lemma preserves_try_catch {A} (body : Js A) (handler : JsError → Js A) :
  preserves R body → (∀ e, preserves R (handler e)) →
  preserves R (try_catch body handler).
Proof.
  intros Hb Hh w. unfold try_catch. specialize (Hb w).
  destruct (body w) as [[a|e] w']; simpl in *; [done|].
  etrans; [exact Hb | apply Hh].
Qed.

Lemma preserves_forEach {A} (l : list A) (f : A → Js unit) :
  (∀ x, preserves R (f x)) → preserves R (forEach l f).
Proof.
  intros Hf. induction l as [|x l IH]; simpl.
  - apply preserves_ret.
  - apply preserves_bind; [apply Hf | by intros _].
Qed.

Lemma preserves_request : preserves R request.
Proof. apply preserves_same. intros w. unfold request. by destruct (next_outcome w). Qed.

Lemma preserves_showToast msg type : preserves R (showToast msg type).
Proof.
  apply preserves_same. intros w. unfold showToast.
  by destruct (toastContainer w).
Qed.

Lemma preserves_console_error msg e : preserves R (console_error msg e).
Proof. by apply preserves_same. Qed.

Lemma preserves_serverTimestamp : preserves R serverTimestamp.
Proof. by apply preserves_same. Qed.

Lemma preserves_getDocs {A} (c : Collection A) q : preserves R (getDocs c q).
Proof.
  apply preserves_same. intros w. rewrite getDocs_run.
  by destruct (next_outcome w).
Qed.

(** Writes to the other collections leave the notifications alone. *)
Lemma preserves_addDoc {A} (c : Collection A) (d : A) :
  (∀ m s, notifications (coll_set c m s) = notifications s) →
  preserves R (addDoc c d).
Proof.
  intros Hc. apply preserves_same. intros w. rewrite addDoc_run.
  destruct (next_outcome w); [apply Hc | done].
Qed.

Lemma preserves_updateDoc {A} (c : Collection A) id (f : A → A) :
  (∀ m s, notifications (coll_set c m s) = notifications s) →
  preserves R (updateDoc c id f).
Proof.
  intros Hc. apply preserves_same. intros w. rewrite updateDoc_run.
  destruct (next_outcome w); [|done].
  destruct (coll_get c (db w) !! id); [apply Hc | done].
Qed.
End Preserves.

#[global] Instance adds_unread_preorder : PreOrder adds_unread.
Proof.
  split.
  - intros m id. destruct (m !! id) eqn:H; [done|]. congruence.
  - intros m1 m2 m3 H12 H23 id. specialize (H12 id).
    destruct (m1 !! id) as [n|] eqn:H1.
    + specialize (H23 id). by rewrite H12 in H23.
    + intros n3 H3. specialize (H23 id).
      destruct (m2 !! id) as [n2|] eqn:H2.
      * rewrite H3 in H23. injection H23 as <-. by apply H12.
      * by apply H23.
Qed.

#[global] Instance marks_read_preorder : PreOrder marks_read.
Proof.
  split.
  - intros m id. destruct (m !! id); [by left | done].
  - intros m1 m2 m3 H12 H23 id. specialize (H12 id). specialize (H23 id).
    destruct (m1 !! id) as [n|].
    + destruct H12 as [H12|H12]; rewrite H12 in H23; [done|].
      right. by destruct H23.
    + by rewrite H12 in H23.
Qed.

Lemma createNotification_adds_unread u m t :
  preserves adds_unread (createNotification u m t).
Proof.
  intros w id. rewrite createNotification_run.
  destruct (next_outcome w); simpl.
  - pose proof (next_id_fresh Notifications (db w)) as Hfresh. simpl in Hfresh.
    destruct (notifications (db w) !! id) as [n|] eqn:Hn.
    + rewrite lookup_insert_ne; [done|]. intros <-. congruence.
    + intros n'. destruct (decide (next_id Notifications (db w) = id)) as [<-|Hne].
      * rewrite lookup_insert_eq. by intros [= <-].
      * rewrite lookup_insert_ne by done. congruence.
  - destruct (notifications (db w) !! id) eqn:Hn; [done|]. congruence.
Qed.

Ltac pres lem := apply lem; [apply _ | ..].

Lemma checkKeywordMatch_adds_unread i t u :
  preserves adds_unread (checkKeywordMatch i t u).
Proof.
  unfold checkKeywordMatch. pres @preserves_try_catch.
  - destruct (List.length (keywords_of t) =? 0)%nat; [pres @preserves_ret|].
    pres @preserves_bind; [pres @preserves_getDocs|].
    intros allItems. pres @preserves_forEach. intros docSnap.
    unfold match_item.
    destruct (String.eqb _ _); [pres @preserves_ret|].
    destruct (existsb _ _); [|pres @preserves_ret].
    pres @preserves_bind; [apply createNotification_adds_unread|].
    intros _. destruct (negb _); [apply createNotification_adds_unread|].
    pres @preserves_ret.
  - intros e. pres @preserves_console_error.
Qed.

Ltac preserves_step :=
  first
    [ pres @preserves_ret
    | pres @preserves_request
    | pres @preserves_showToast
    | pres @preserves_console_error
    | pres @preserves_serverTimestamp
    | pres @preserves_getDocs
    | apply createNotification_adds_unread
    | apply checkKeywordMatch_adds_unread
    | pres @preserves_addDoc; done
    | pres @preserves_updateDoc; done
    | pres @preserves_try_catch; [|intros ?]
    | pres @preserves_forEach; intros ?
    | pres @preserves_bind; [|intros ?] ].

Lemma submitLostFoundItem_adds_unread u n f :
  preserves adds_unread (submitLostFoundItem u n f).
Proof.
  unfold submitLostFoundItem. destruct (fd_image f); repeat preserves_step.
Qed.

Lemma updateLostFoundStatus_adds_unread i s o :
  preserves adds_unread (updateLostFoundStatus i s o).
Proof. unfold updateLostFoundStatus. repeat preserves_step. Qed.

Lemma updateComplaintStatus_adds_unread i s o :
  preserves adds_unread (updateComplaintStatus i s o).
Proof. unfold updateComplaintStatus. repeat preserves_step. Qed.

Lemma registerVolunteer_adds_unread u n f :
  preserves adds_unread (registerVolunteer u n f).
Proof.
  unfold registerVolunteer. preserves_step; [|repeat preserves_step].
  preserves_step; [preserves_step|].
  destruct (negb _); repeat preserves_step.
Qed.

Lemma broadcastAnnouncement_adds_unread msg :
  preserves adds_unread (broadcastAnnouncement msg).
Proof.
  unfold broadcastAnnouncement. destruct (String.eqb _ _); repeat preserves_step.
Qed.

Lemma read_all_cases userId n :
  read_all userId n = n ∨ read_all userId n = mark_read n.
Proof. unfold read_all. destruct (_ && _); [by right | by left]. Qed.

Lemma markAllRead_marks_read u : preserves marks_read (markAllRead u).
Proof.
  intros w id. pose proof (markAllRead_run u w) as Hcase.
  destruct (_ && _).
  - destruct Hcase as (w' & m' & -> & Hdb & Hlook). simpl. rewrite Hdb. simpl.
    rewrite Hlook. destruct (notifications (db w) !! id) as [n|]; [|done].
    simpl. destruct (read_all_cases u n) as [-> | ->]; [by left | by right].
  - destruct Hcase as (e & w' & -> & Hdb). simpl. rewrite Hdb.
    destruct (notifications (db w) !! id); [by left | done].
Qed.

Lemma markOneRead_marks_read i : preserves marks_read (markOneRead i).
Proof.
  intros w id. unfold markOneRead. rewrite updateDoc_run.
  destruct (next_outcome w); simpl;
    [|destruct (notifications (db w) !! id); [by left | done]].
  destruct (notifications (db w) !! i) as [d|] eqn:Hd; simpl;
    [|destruct (notifications (db w) !! id); [by left | done]].
  destruct (decide (i = id)) as [->|Hne].
  - rewrite Hd, lookup_insert_eq. by right.
  - rewrite lookup_insert_ne by done.
    destruct (notifications (db w) !! id); [by left | done].
Qed.

Lemma perform_one_way (op : Operation) :
  preserves adds_unread (perform op) ∨ preserves marks_read (perform op).
Proof.
  destruct op; simpl.
  - left. apply createNotification_adds_unread.
  - right. apply markAllRead_marks_read.
  - right. apply markOneRead_marks_read.
  - left. pres @preserves_bind; [apply submitLostFoundItem_adds_unread|].
    intros _. pres @preserves_ret.
  - left. apply checkKeywordMatch_adds_unread.
  - left. apply updateLostFoundStatus_adds_unread.
  - left. apply updateComplaintStatus_adds_unread.
  - left. pres @preserves_bind; [apply registerVolunteer_adds_unread|].
    intros _. pres @preserves_ret.
  - left. apply broadcastAnnouncement_adds_unread.
Qed.

Lemma mark_read_read n : n_read n = true → mark_read n = n.
Proof. destruct n. simpl. by intros ->. Qed.

Lemma step_keeps_read w s id n :
  notifications (db w) !! id = Some n → n_read n = true →
  notifications (db (step w s)) !! id = Some n.
Proof.
  intros Hn Hr. destruct s as [[op p] t]. unfold step. simpl.
  destruct (perform_one_way op) as [H|H];
    specialize (H (set_env p t w) id); simpl in H; rewrite Hn in H.
  - done.
  - destruct H as [H|H]; [done|]. by rewrite mark_read_read in H.
Qed.

Lemma step_creates_unread w s id n' :
  notifications (db w) !! id = None →
  notifications (db (step w s)) !! id = Some n' → n_read n' = false.
Proof.
  intros Hn Hn'. destruct s as [[op p] t]. unfold step in Hn'. simpl in Hn'.
  destruct (perform_one_way op) as [H|H];
    specialize (H (set_env p t w) id); simpl in H; rewrite Hn in H.
  - by apply H.
  - congruence.
Qed.

(** C8. The read flag is one-way.  [createNotification] stores its
    notification with read = false; a notification that appears during any
    operation is unread; and a notification that is read stays in the
    store, read and unchanged, through every sequence of operations,
    whatever the store answers and whatever the clock shows in between. *)
Theorem read_flag_one_way :
  (∀ userId message type t,
     n_read (new_notification userId message type t) = false)
  ∧ (∀ w s id n',
       notifications (db w) !! id = None →
       notifications (db (step w s)) !! id = Some n' →
       n_read n' = false)
  ∧ (∀ steps w id n,
       notifications (db w) !! id = Some n →
       n_read n = true →
       notifications (db (run w steps)) !! id = Some n).
Proof.
  split; [done|]. split; [apply step_creates_unread|].
  induction steps as [|s steps IH]; intros w id n Hn Hr; [done|].
  simpl. apply IH; [|done]. by apply step_keeps_read.
Qed.

(* ===================================================================== *)
(** * Keyword matching *)

Arguments keywords_of : simpl never.
Arguments includes : simpl never.
Arguments toLowerCase : simpl never.
Arguments match_found_message : simpl never.
Arguments match_check_message : simpl never.

Lemma forEach_skip {A} (l : list A) (f : A → Js unit) w :
  (∀ x, x ∈ l → ∀ w', f x w' = (Normal tt, w')) →
  forEach l f w = (Normal tt, w).
Proof.
  induction l as [|x l IH]; intros Hf; [done|].
  simpl. unfold bind. rewrite Hf by left. apply IH.
  intros y Hy. apply Hf. by right.
Qed.

Lemma query_docs_all {A} (docs : gmap string A) :
  query_docs (λ _, true) docs = map_to_list docs.
Proof.
  unfold query_docs. induction (map_to_list docs) as [|x l IH]; [done|].
  simpl. by rewrite IH.
Qed.

Lemma keywords_lost_bag : keywords_of "Lost Bag" = ["lost"].
Proof. reflexivity. Qed.

Lemma keywords_lost_brown_wallet :
  keywords_of "Lost Brown Wallet" = ["lost"; "brown"; "wallet"].
Proof. reflexivity. Qed.

(** With no request failing in between, two notifications written one after
    the other land under two different identifiers. *)
Lemma two_notifications u1 m1 t1 u2 m2 t2 w :
  requests_succeed 2 w →
  ∃ w' id1 id2,
    (exec createNotification u1 m1 t1; createNotification u2 m2 t2) w
    = (Normal tt, w')
    ∧ id1 ≠ id2
    ∧ notifications (db w) !! id1 = None
    ∧ notifications (db w) !! id2 = None
    ∧ notifications (db w')
      = <[id2 := new_notification u2 m2 t2 (now w)]>
          (<[id1 := new_notification u1 m1 t1 (now w)]> (notifications (db w))).
Proof.
  intros (H1 & (H2 & _)%requests_succeed_S)%requests_succeed_S.
  unfold bind. rewrite createNotification_run, H1.
  rewrite createNotification_run.
  change (next_outcome (set_db _ (consume w))) with (next_outcome (consume w)).
  rewrite H2.
  set (id1 := next_id Notifications (db w)).
  set (s1 := put Notifications id1 (new_notification u1 m1 t1 (now w)) (db w)).
  set (id2 := next_id Notifications s1).
  pose proof (next_id_fresh Notifications (db w)) as Hf1.
  pose proof (next_id_fresh Notifications s1) as Hf2.
  fold id1 in Hf1. fold id2 in Hf2. simpl in Hf1, Hf2.
  assert (id1 ≠ id2) as Hne.
  { intros Heq. rewrite <- Heq, lookup_insert_eq in Hf2. discriminate. }
  eexists _, id1, id2. split; [reflexivity|].
  split; [done|]. split; [done|]. split; [|done].
  by rewrite lookup_insert_ne in Hf2.
Qed.

Lemma two_items_listing {A} (i j : string) (x y : A) :
  i ≠ j →
  map_to_list (<[i := x]> ({[j := y]} : gmap string A)) = [(i, x); (j, y)]
  ∨ map_to_list (<[i := x]> ({[j := y]} : gmap string A)) = [(j, y); (i, x)].
Proof.
  intros Hne. apply Permutation_length_2_inv. symmetry.
  rewrite map_to_list_insert by by apply lookup_singleton_ne.
  by rewrite map_to_list_singleton.
Qed.

Lemma found_brown_wallet_matches :
  existsb (λ kw, includes (toLowerCase "Found Brown Wallet Downtown") kw)
    ["lost"; "brown"; "wallet"] = true.
Proof. reflexivity. Qed.


Lemma createNotification_returns u m t w :
  ∃ w', createNotification u m t w = (Normal tt, w').
Proof. rewrite createNotification_run. destruct (next_outcome w); by eexists. Qed.

Lemma match_item_returns i t u kws docSnap w :
  ∃ w', match_item i t u kws docSnap w = (Normal tt, w').
Proof.
  unfold match_item. destruct (String.eqb _ _); [by eexists|].
  destruct (existsb _ _); [|by eexists].
  unfold bind.
  destruct (createNotification_returns u
              (match_found_message (lf_title docSnap.2)) "match" w)
    as (w1 & ->).
  destruct (negb _); [|by eexists].
  apply createNotification_returns.
Qed.

Lemma forEach_returns {A} (l : list A) (f : A → Js unit) w :
  (∀ x w0, ∃ w', f x w0 = (Normal tt, w')) →
  ∃ w', forEach l f w = (Normal tt, w').
Proof.
  intros Hf. revert w. induction l as [|x l IH]; intros w; [by eexists|].
  simpl. unfold bind. destruct (Hf x w) as (w1 & ->). apply IH.
Qed.

(** Once the read of the items has succeeded, nothing in the matching
    step throws: it is the loop over the items. *)
Lemma checkKeywordMatch_run i t u w :
  keywords_of t ≠ [] →
  next_outcome w = Succeeds →
  checkKeywordMatch i t u w
  = forEach (map_to_list (lost_found_items (db w)))
      (match_item i t u (keywords_of t)) (consume w).
Proof.
  intros Hk H1. unfold checkKeywordMatch, try_catch.
  destruct (keywords_of t) as [|k ks] eqn:Hkw; [done|]. simpl.
  unfold bind. rewrite getDocs_run, H1, query_docs_all. simpl.
  destruct (forEach_returns (map_to_list (lost_found_items (db w)))
              (match_item i t u (k :: ks)) (consume w)) as (w' & ->); [|done].
  intros x w0. apply match_item_returns.
Qed.

Lemma checkKeywordMatch_no_keywords i t u w :
  keywords_of t = [] → checkKeywordMatch i t u w = (Normal tt, w).
Proof. intros Hk. unfold checkKeywordMatch, try_catch. by rewrite Hk. Qed.

Lemma checkKeywordMatch_read_fails i t u w code :
  keywords_of t ≠ [] →
  next_outcome w = Fails code →
  checkKeywordMatch i t u w
  = (Normal tt, add_console ("Keyword match error:", Some (FirestoreError code))
                  (consume w)).
Proof.
  intros Hk H1. unfold checkKeywordMatch, try_catch.
  destruct (keywords_of t) as [|k ks] eqn:Hkw; [done|]. simpl.
  unfold bind. by rewrite getDocs_run, H1.
Qed.

Lemma match_item_self i t u kws item w :
  match_item i t u kws (i, item) w = (Normal tt, w).
Proof. unfold match_item. simpl. by rewrite String.eqb_refl. Qed.

Lemma match_item_other_owner i t u kws id item :
  id ≠ i →
  existsb (λ kw, includes (toLowerCase (lf_title item)) kw) kws = true →
  lf_userId item ≠ u →
  match_item i t u kws (id, item)
  = (exec createNotification u (match_found_message (lf_title item)) "match";
     createNotification (lf_userId item) (match_check_message t) "match").
Proof.
  intros Hid Hm Hu. unfold match_item. simpl.
  rewrite (proj2 (String.eqb_neq id i) Hid), Hm.
  by rewrite (proj2 (String.eqb_neq (lf_userId item) u) Hu).
Qed.

Lemma match_item_no_match i t u kws id item w :
  existsb (λ kw, includes (toLowerCase (lf_title item)) kw) kws = false →
  match_item i t u kws (id, item) w = (Normal tt, w).
Proof.
  intros Hm. unfold match_item. simpl. rewrite Hm. by destruct (String.eqb id i).
Qed.

(** C2. Matching "Lost Brown Wallet" against a store that holds, besides
    the new item, exactly one record, titled "Found Brown Wallet Downtown"
    and owned by someone else: with the store answering the read and the
    writes, the notifications gain exactly two documents, one addressed to
    the submitter whose message contains "Found Brown Wallet Downtown", and
    one addressed to the other record's owner whose message contains
    "Lost Brown Wallet". *)
Theorem lost_brown_wallet_two_notifications
    (w : World) (newItemId otherId userId : string)
    (new other : LostFoundItem) :
  lost_found_items (db w) = <[newItemId := new]> {[otherId := other]} →
  newItemId ≠ otherId →
  lf_title other = "Found Brown Wallet Downtown" →
  lf_userId other ≠ userId →
  requests_succeed 3 w →
  ∃ w' id1 id2 n1 n2,
    checkKeywordMatch newItemId "Lost Brown Wallet" userId w = (Normal tt, w')
    ∧ id1 ≠ id2
    ∧ notifications (db w) !! id1 = None
    ∧ notifications (db w) !! id2 = None
    ∧ notifications (db w')
      = <[id2 := n2]> (<[id1 := n1]> (notifications (db w)))
    ∧ n_userId n1 = userId
    ∧ Contains (n_message n1) "Found Brown Wallet Downtown"
    ∧ n_userId n2 = lf_userId other
    ∧ Contains (n_message n2) "Lost Brown Wallet".
Proof.
  intros Hitems Hne Htitle Howner (H1 & Hreq)%requests_succeed_S.
  destruct (two_notifications userId
              (match_found_message "Found Brown Wallet Downtown") "match"
              (lf_userId other) (match_check_message "Lost Brown Wallet")
              "match" (consume w) Hreq)
    as (w' & id1 & id2 & Hrun & Hids & Hf1 & Hf2 & Hnotif).
  exists w', id1, id2,
    (new_notification userId
       (match_found_message "Found Brown Wallet Downtown") "match" (now w)),
    (new_notification (lf_userId other)
       (match_check_message "Lost Brown Wallet") "match" (now w)).
  split.
  { rewrite checkKeywordMatch_run by done. rewrite Hitems.
    assert (match_item newItemId "Lost Brown Wallet" userId
              (keywords_of "Lost Brown Wallet") (otherId, other) (consume w)
            = (Normal tt, w')) as Hother.
    { rewrite match_item_other_owner; [by rewrite Htitle | done | | done].
      rewrite Htitle. apply found_brown_wallet_matches. }
    destruct (two_items_listing newItemId otherId new other Hne) as [-> | ->];
      simpl; unfold bind.
    - by rewrite match_item_self, Hother.
    - by rewrite Hother, match_item_self. }
  repeat split; try done.
  - apply (contains_intro ("🔍 Possible match found! " +:+ dquote)
             "Found Brown Wallet Downtown" (dquote +:+ " may match your report.")).
  - apply (contains_intro ("🔍 Possible match for your item! Check " +:+ dquote)
             "Lost Brown Wallet" (dquote +:+ ".")).
Qed.

Lemma lower_char_code_units c : code_units (lower_char c) = code_units c.
Proof. destruct c as [[] [] [] [] [] [] [] []]; reflexivity. Qed.

Lemma String_length_toLowerCase s :
  String_length (toLowerCase s) = String_length s.
Proof.
  induction s as [|c s IH]; [done|].
  simpl. by rewrite lower_char_code_units, IH.
Qed.

Lemma split_toLowerCase s : split (toLowerCase s) = toLowerCase <$> split s.
Proof.
  induction s as [|c s IH]; [done|]. simpl. rewrite IH.
  assert (Ascii.eqb (lower_char c) " " = Ascii.eqb c " ") as ->
    by (destruct c as [[] [] [] [] [] [] [] []]; reflexivity).
  destruct (Ascii.eqb c " "); [done|]. by destruct (split s).
Qed.

Lemma keywords_of_short newTitle :
  Forall (λ tok, (String_length tok ≤ 3)%nat) (split newTitle) →
  keywords_of newTitle = [].
Proof.
  unfold keywords_of. rewrite split_toLowerCase.
  induction 1 as [|tok l Htok _ IH]; [done|].
  simpl. rewrite String_length_toLowerCase.
  by rewrite (proj2 (Nat.ltb_ge 3 (String_length tok)) Htok).
Qed.

(** C3, as the code has it.  "Lost Bag" keeps the keyword "lost", which has
    four characters; only "bag" is dropped.  Matching is attempted: the
    records are read, one request, whether the store answers it or not;
    and where the titles of the store are ASCII text and no other record's
    lower-cased title contains "lost", it writes no notification.  A title
    of ASCII text all of whose tokens have at most three characters has no
    keyword: for it the matching step returns at once, in every state of
    the store, without a read and without a notification. *)
Theorem lost_bag_matches_on_lost :
  keywords_of "Lost Bag" = ["lost"]
  ∧ (∀ w newItemId userId,
       ascii_titles (lost_found_items (db w)) →
       (∀ id item, lost_found_items (db w) !! id = Some item →
                   id ≠ newItemId →
                   includes (toLowerCase (lf_title item)) "lost" = false) →
       ∃ w', checkKeywordMatch newItemId "Lost Bag" userId w = (Normal tt, w')
         ∧ db w' = db w
         ∧ pending w' = tail (pending w))
  ∧ (∀ newTitle,
       ascii_text newTitle = true →
       Forall (λ tok, (String_length tok ≤ 3)%nat) (split newTitle) →
       ∀ w newItemId userId,
         checkKeywordMatch newItemId newTitle userId w = (Normal tt, w)).
Proof.
  split; [reflexivity|]. split.
  - intros w newItemId userId _ Hnone.
    destruct (next_outcome w) eqn:H1.
    + rewrite checkKeywordMatch_run by done.
      rewrite forEach_skip; [by eexists|].
      intros [id item] Hin%elem_of_map_to_list w'.
      destruct (decide (id = newItemId)) as [->|Hid].
      * apply match_item_self.
      * apply match_item_no_match. rewrite keywords_lost_bag. simpl.
        by rewrite (Hnone id item Hin Hid).
    + erewrite checkKeywordMatch_read_fails by done. by eexists.
  - intros newTitle _ Hshort w newItemId userId.
    by apply checkKeywordMatch_no_keywords, keywords_of_short.
Qed.

(** "Lost Bag" does produce notifications: the token "lost" survives the
    filter, and with bob's "Lost Keys" in the store the matching step
    notifies both alice and bob. *)
Lemma lost_bag_yields_notifications :
  keywords_of "Lost Bag" ≠ []
  ∧ size (notifications (db (world_of lost_keys_store []))) = 0
  ∧ size (notifications
            (db (checkKeywordMatch "new" "Lost Bag" "alice"
                   (world_of lost_keys_store [])).2)) = 2
  ∧ size (notifications
            (db (submitLostFoundItem "alice" "Alice" (sample_form "Lost Bag")
                   (world_of lost_keys_store [])).2)) = 2
  ∧ ¬ (∀ w newItemId userId,
         notifications (db (checkKeywordMatch newItemId "Lost Bag" userId w).2)
         = notifications (db w)).
Proof.
  split; [done|]. split; [reflexivity|].
  split; [by vm_compute|]. split; [by vm_compute|].
  intros H.
  specialize (H (world_of lost_keys_store []) "new" "alice").
  apply (f_equal size) in H. vm_compute in H. discriminate.
Qed.

Lemma lost_bag_matches_on_lost_witness :
  (∃ w', checkKeywordMatch "new" "Lost Bag" "alice"
           (world_of wallet_store [Succeeds; Fails "unavailable"])
         = (Normal tt, w')
         ∧ db w' = wallet_store
         ∧ pending w' = [Fails "unavailable"])
  ∧ checkKeywordMatch "new" "Old Bag" "alice" (world_of lost_keys_store [])
    = (Normal tt, world_of lost_keys_store []).
Proof.
  split.
  - apply (proj1 (proj2 lost_bag_matches_on_lost)
             (world_of wallet_store [Succeeds; Fails "unavailable"])).
    + unfold ascii_titles. apply (bool_decide_unpack _). by vm_compute.
    + intros id item Hitem Hid. unfold wallet_store, put in Hitem.
      simpl in Hitem.
      apply lookup_insert_Some in Hitem as [[<- _]|[_ Hitem]]; [done|].
      apply lookup_insert_Some in Hitem as [[_ <-]|[_ Hitem]]; [reflexivity|].
      by rewrite lookup_empty in Hitem.
  - apply (proj2 (proj2 lost_bag_matches_on_lost)).
    + reflexivity.
    + repeat constructor.
Defined.

(* ===================================================================== *)
(** * Sorting *)

Section ArraySortFacts.
Context {A : Type} (key : A → Z).

Lemma sort_insert_perm (cmp : A → A → Z) x l :
  sort_insert cmp x l ≡ₚ x :: l.
Proof.
  induction l as [|y l IH]; simpl; [done|].
  destruct (cmp x y <=? 0)%Z; [done|].
  rewrite IH. apply Permutation_swap.
Qed.

Lemma Array_sort_perm (cmp : A → A → Z) l : Array_sort cmp l ≡ₚ l.
Proof.
  induction l as [|x l IH]; simpl; [done|].
  unfold Array_sort in *. simpl. by rewrite sort_insert_perm, IH.
Qed.

Lemma Array_sort_ext (cmp cmp' : A → A → Z) l :
  (∀ a b, cmp a b = cmp' a b) → Array_sort cmp l = Array_sort cmp' l.
Proof.
  intros Hext. unfold Array_sort.
  induction l as [|x l IH]; [done|]. simpl. rewrite IH.
  generalize (foldr (sort_insert cmp') [] l). intros k.
  induction k as [|y k IHk]; [done|]. simpl. by rewrite Hext, IHk.
Qed.

Lemma sort_insert_sorted x l :
  StronglySorted (before key) l →
  StronglySorted (before key) (sort_insert (by_key key) x l).
Proof.
  induction l as [|y l IH]; intros Hs; simpl.
  - repeat constructor.
  - apply StronglySorted_cons in Hs as [Hy Hl].
    destruct (by_key key x y <=? 0)%Z eqn:Hc.
    + apply Z.leb_le in Hc. unfold by_key in Hc.
      apply StronglySorted_cons. split.
      * constructor; [unfold before; lia|].
        eapply Forall_impl; [exact Hy|]. unfold before. intros z Hz. lia.
      * by apply StronglySorted_cons.
    + apply Z.leb_gt in Hc. unfold by_key in Hc.
      apply StronglySorted_cons. split; [|by apply IH].
      rewrite sort_insert_perm. constructor; [unfold before; lia | done].
Qed.

Lemma Array_sort_sorted l :
  StronglySorted (before key) (Array_sort (by_key key) l).
Proof.
  induction l as [|x l IH]; [constructor|].
  unfold Array_sort in *. simpl. by apply sort_insert_sorted.
Qed.

Lemma sorted_lookup_before (l : list A) i j a b :
  StronglySorted (before key) l →
  l !! i = Some a → l !! j = Some b → i < j → before key a b.
Proof.
  intros Hs. revert i j. induction Hs as [|x l Hs IH Hx]; intros i j Hi Hj Hlt.
  - by rewrite lookup_nil in Hi.
  - destruct j as [|j]; [lia|]. destruct i as [|i]; simpl in *.
    + injection Hi as <-. rewrite Forall_forall in Hx. apply Hx.
      by eapply list_elem_of_lookup_2.
    + apply (IH i j); [done | done | lia].
Qed.

(** The sort is stable: the elements of one key keep their order. *)
Lemma sort_insert_same_key (s : Z) x l :
  List.filter (λ d, (key d =? s)%Z) (sort_insert (by_key key) x l)
  = List.filter (λ d, (key d =? s)%Z) (x :: l).
Proof.
  induction l as [|y l IH]; [done|]. cbn [sort_insert].
  destruct (by_key key x y <=? 0)%Z eqn:Hc; [done|].
  apply Z.leb_gt in Hc. unfold by_key in Hc.
  cbn [List.filter] in *. rewrite IH.
  destruct (Z.eqb_spec (key y) s) as [Hy|Hy];
    destruct (Z.eqb_spec (key x) s) as [Hx|Hx]; try done. lia.
Qed.

Lemma Array_sort_same_key (s : Z) l :
  List.filter (λ d, (key d =? s)%Z) (Array_sort (by_key key) l)
  = List.filter (λ d, (key d =? s)%Z) l.
Proof.
  induction l as [|x l IH]; [done|].
  unfold Array_sort in *. cbn [foldr]. rewrite sort_insert_same_key.
  cbn [List.filter]. by rewrite IH.
Qed.
End ArraySortFacts.

Lemma map_with_id {A} (l : list (string * A)) : map with_id l = l.
Proof. induction l as [|[id d] l IH]; [done|]. simpl. by rewrite IH. Qed.

Lemma seconds_or_0_default (createdAt : option Timestamp) :
  seconds_or_0 createdAt = default 0%Z (seconds <$> createdAt).
Proof.
  destruct createdAt as [t|]; [|done]. simpl.
  destruct (Z.eqb_spec (seconds t) 0); congruence.
Qed.

Lemma newest_first_by_key {A} `{Document A} (l : list (string * A)) :
  Array_sort newest_first l = Array_sort (by_key second_of) l.
Proof. by apply Array_sort_ext. Qed.

(* ===================================================================== *)
(** * Projections *)

Section Projection.
Context {A : Type} `{Document A}.

Lemma projection_perm userId (docs : gmap string A) :
  projection userId docs ≡ₚ query_docs (where_userId userId) docs.
Proof. unfold projection. by rewrite Array_sort_perm, map_with_id. Qed.

Lemma projection_is_ok userId (docs : gmap string A) :
  projection_ok userId docs (projection userId docs).
Proof.
  assert (StronglySorted (λ a b : string * A, (second_of b ≤ second_of a)%Z)
            (projection userId docs)) as Hsorted.
  { unfold projection. rewrite newest_first_by_key.
    apply (Array_sort_sorted second_of). }
  split; [|split; [|split; [|split]]].
  - intros id d. rewrite (projection_perm userId docs), elem_of_query_docs.
    unfold where_userId. by rewrite String.eqb_eq.
  - rewrite (projection_perm userId docs). apply query_docs_NoDup.
  - exact Hsorted.
  - intros i j a b t Hi Hj Ha Hb Ht.
    destruct (decide (j < i)) as [|Hge]; [done|]. exfalso.
    destruct (decide (i = j)) as [->|Hne]; [congruence|].
    pose proof (sorted_lookup_before second_of
                  _ i j a b Hsorted Hi Hj) as Hbefore.
    unfold before, second_of in Hbefore.
    rewrite Ha, Hb, !seconds_or_0_default in Hbefore. simpl in Hbefore. lia.
  - intros s. unfold projection, of_second.
    by rewrite newest_first_by_key, Array_sort_same_key, map_with_id.
Qed.

End Projection.



(** C4. [markAllRead] is idempotent.  When a call returns, it has flipped
    exactly the recipient's unread notifications and the recipient has no
    unread notification left.  A second call on the store the first one
    left changes nothing, whatever the store answers: the notifications
    read after two calls are those read after one; and when the store
    answers its two requests, the second call returns normally too.  The
    projection a subscription of the recipient is handed after the first
    call holds no unread notification. *)
Theorem markAllRead_idempotent (userId : string) (w w1 : World) :
  markAllRead userId w = (Normal tt, w1) →
  (∀ id, notifications (db w1) !! id
         = read_all userId <$> notifications (db w) !! id)
  ∧ (∀ id n, notifications (db w1) !! id = Some n →
             n_userId n = userId → n_read n = true)
  ∧ (∀ w2, db w2 = db w1 → db (markAllRead userId w2).2 = db w1)
  ∧ (∀ w2, db w2 = db w1 → requests_succeed 2 w2 →
           ∃ w3, markAllRead userId w2 = (Normal tt, w3) ∧ db w3 = db w1)
  ∧ Forall (λ d, n_read d.2 = true)
      (projection userId (notifications (db w1))).
Proof.
  intros Hrun.
  assert (∀ id, notifications (db w1) !! id
                = read_all userId <$> notifications (db w) !! id) as Hfirst.
  { pose proof (markAllRead_run userId w) as Hcase.
    destruct (_ && _); destruct Hcase as (x & y & Hr & Hrest); [|congruence].
    destruct Hrest as [Hdb Hlook].
    assert (x = w1) as -> by congruence. rewrite Hdb. exact Hlook. }
  assert (∀ id n, notifications (db w1) !! id = Some n →
                  n_userId n = userId → n_read n = true) as Hnone.
  { intros id n Hn Hu. rewrite Hfirst in Hn.
    destruct (notifications (db w) !! id) as [n0|]; [|done].
    injection Hn as <-. apply read_all_read. by rewrite read_all_userId in Hu. }
  assert (∀ w2 w3 m', db w2 = db w1 →
            db w3 = coll_set Notifications m' (db w2) →
            (∀ i, m' !! i = read_all userId <$> notifications (db w2) !! i) →
            db w3 = db w1) as Hsame.
  { intros w2 w3 m' Hw2 Hdb Hlook. rewrite Hdb.
    assert (m' = notifications (db w2)) as ->.
    { apply map_eq. intros i. rewrite Hlook.
      destruct (notifications (db w2) !! i) as [n|] eqn:Hn; [|done].
      simpl. f_equal. apply read_all_id. apply (Hnone i). by rewrite <- Hw2. }
    by rewrite coll_set_get_notifications. }
  split; [done|]. split; [done|]. split; [|split].
  - intros w2 Hw2. pose proof (markAllRead_run userId w2) as Hcase.
    destruct (_ && _).
    + destruct Hcase as (w' & m' & -> & Hdb & Hlook). simpl. by eapply Hsame.
    + destruct Hcase as (e & w' & -> & Hdb). simpl. by rewrite Hdb.
  - intros w2 Hw2 (H1 & (H2 & _)%requests_succeed_S)%requests_succeed_S.
    pose proof (markAllRead_run userId w2) as Hcase.
    rewrite H1, H2 in Hcase. simpl in Hcase.
    destruct Hcase as (w' & m' & Hr & Hdb & Hlook).
    exists w'. split; [done|]. exact (Hsame w2 w' m' Hw2 Hdb Hlook).
  - apply Forall_forall. intros [id n] Hin.
    apply (projection_is_ok userId (notifications (db w1))) in Hin
      as [Hn Hu].
    by apply (Hnone id n).
Qed.

(* ===================================================================== *)
(** * The properties on sample data *)

Example projection_of_inbox :
  (projection "alice" (notifications inbox_store)).*1 = ["n1"; "n2"].
Proof. by vm_compute. Qed.

Lemma lost_brown_wallet_two_notifications_witness :
  ∃ w' id1 id2 n1 n2,
    checkKeywordMatch "new" "Lost Brown Wallet" "alice"
      (world_of wallet_store []) = (Normal tt, w')
    ∧ id1 ≠ id2
    ∧ notifications (db (world_of wallet_store [])) !! id1 = None
    ∧ notifications (db (world_of wallet_store [])) !! id2 = None
    ∧ notifications (db w')
      = <[id2 := n2]>
          (<[id1 := n1]> (notifications (db (world_of wallet_store []))))
    ∧ n_userId n1 = "alice"
    ∧ Contains (n_message n1) "Found Brown Wallet Downtown"
    ∧ n_userId n2 = "bob"
    ∧ Contains (n_message n2) "Lost Brown Wallet".
Proof.
  apply (lost_brown_wallet_two_notifications (world_of wallet_store [])
           "new" "old" "alice"
           (sample_item "Lost Brown Wallet" "alice")
           (sample_item "Found Brown Wallet Downtown" "bob")).
  - reflexivity.
  - discriminate.
  - reflexivity.
  - discriminate.
  - reflexivity.
Defined.

Lemma markAllRead_idempotent_witness :
  let w := world_of inbox_store [] in
  let w1 := (markAllRead "alice" w).2 in
  markAllRead "alice" w = (Normal tt, w1)
  ∧ (∀ id n, notifications (db w1) !! id = Some n →
             n_userId n = "alice" → n_read n = true)
  ∧ (∀ w2, db w2 = db w1 → db (markAllRead "alice" w2).2 = db w1).
Proof.
  assert (markAllRead "alice" (world_of inbox_store [])
          = (Normal tt, (markAllRead "alice" (world_of inbox_store [])).2))
    as Hrun by (by vm_compute).
  split; [exact Hrun|].
  pose proof (markAllRead_idempotent "alice" (world_of inbox_store [])
                (markAllRead "alice" (world_of inbox_store [])).2 Hrun)
    as (_ & Hnone & Hsame & _).
  split; [exact Hnone | exact Hsame].
Defined.

Lemma register_twice_sequentially_witness :
  ∃ w1 rid,
    registerVolunteer "alice" "Alice" sample_volunteer_form
      (world_of empty_store []) = (Normal true, w1)
    ∧ volunteers (db (world_of empty_store [])) !! rid = None
    ∧ db w1 = put Volunteers rid
                (registration "alice" "Alice" sample_volunteer_form
                   (at_second 1700000000))
                (db (world_of empty_store []))
    ∧ ∀ userName' formData' w2,
        vf_eventId formData' = vf_eventId sample_volunteer_form →
        db w2 = db w1 →
        ∃ w3, registerVolunteer "alice" userName' formData' w2
              = (Normal false, w3)
              ∧ db w3 = db w1.
Proof.
  apply (register_twice_sequentially "alice" "Alice" sample_volunteer_form
           (world_of empty_store [])).
  - intros id v Hv. simpl in Hv. by rewrite lookup_empty in Hv.
  - reflexivity.
Defined.

Lemma complaint_submitted_to_resolved_witness :
  ∃ w' nid n,
    updateComplaintStatus "c1" "Resolved" "alice"
      (world_of complaint_store []) = (Normal tt, w')
    ∧ complaints (db w')
      = <["c1" := set_c_status "Resolved" sample_complaint]>
          (complaints (db (world_of complaint_store [])))
    ∧ c_status (set_c_status "Resolved" sample_complaint) = "Resolved"
    ∧ notifications (db (world_of complaint_store [])) !! nid = None
    ∧ notifications (db w')
      = <[nid := n]> (notifications (db (world_of complaint_store [])))
    ∧ n_userId n = "alice"
    ∧ n_read n = false
    ∧ Contains (n_message n) "Resolved".
Proof.
  apply (complaint_submitted_to_resolved "c1" sample_complaint
           (world_of complaint_store [])); reflexivity.
Defined.

Lemma failed_status_update_sends_no_notification_witness :
  let w := world_of complaint_store [Fails "unavailable"] in
  (∃ w', updateComplaintStatus "c1" "Resolved" "alice" w = (Normal tt, w')
     ∧ db w' = db w
     ∧ pending w' = []
     ∧ console w' = [("Error:", Some (FirestoreError "unavailable"));
                     ("❌ UPDATE COMPLAINT ERROR ===", None)])
  ∧ (∃ w', updateLostFoundStatus "k1" "Found" "bob" w = (Normal tt, w')
       ∧ db w' = db w
       ∧ pending w' = []
       ∧ console w' = [("Update status error:",
                        Some (FirestoreError "unavailable"))]).
Proof.
  split.
  - apply (proj1 (failed_status_update_sends_no_notification
                    "c1" "Resolved" "alice"
                    (world_of complaint_store [Fails "unavailable"])
                    (world_of complaint_store [])
                    (FirestoreError "unavailable"))).
    reflexivity.
  - apply (proj2 (failed_status_update_sends_no_notification
                    "k1" "Found" "bob"
                    (world_of complaint_store [Fails "unavailable"])
                    (world_of complaint_store [])
                    (FirestoreError "unavailable"))).
    reflexivity.
Defined.

Lemma registerVolunteer_never_throws_witness :
  (∃ w', registerVolunteer "alice" "Alice" sample_volunteer_form
           (world_of empty_store [Fails "unavailable"]) = (Normal false, w')
         ∧ db w' = empty_store)
  ∧ (∃ w', registerVolunteer "alice" "Alice" sample_volunteer_form
             (world_of empty_store [Succeeds; Fails "unavailable"])
           = (Normal false, w')
           ∧ db w' = empty_store)
  ∧ (∃ w', registerVolunteer "alice" "Alice" sample_volunteer_form
             (world_of
                (put Volunteers "v1"
                   (registration "alice" "Alice" sample_volunteer_form (at_second 0))
                   empty_store) [])
           = (Normal false, w')
           ∧ db w' = put Volunteers "v1"
                       (registration "alice" "Alice" sample_volunteer_form (at_second 0))
                       empty_store).
Proof.
  split; [|split].
  - apply (proj1 (proj2 (registerVolunteer_never_throws "alice" "Alice"
             sample_volunteer_form (world_of empty_store [Fails "unavailable"])))
             "unavailable").
    reflexivity.
  - apply (proj1 (proj2 (proj2 (registerVolunteer_never_throws "alice" "Alice"
             sample_volunteer_form
             (world_of empty_store [Succeeds; Fails "unavailable"]))))
             "unavailable").
    + reflexivity.
    + intros id v Hv. simpl in Hv. by rewrite lookup_empty in Hv.
    + reflexivity.
  - apply (proj2 (proj2 (proj2 (registerVolunteer_never_throws "alice" "Alice"
             sample_volunteer_form
             (world_of
                (put Volunteers "v1"
                   (registration "alice" "Alice" sample_volunteer_form (at_second 0))
                   empty_store) []))))
             "v1" (registration "alice" "Alice" sample_volunteer_form (at_second 0))).
    + reflexivity.
    + reflexivity.
    + by split.
Defined.

Lemma read_flag_one_way_witness :
  notifications
    (db (run (world_of inbox_store [])
           [(MarkAllRead "bob", [], at_second 1700000100);
            (CreateNotification "alice" "again" "info", [], at_second 1700000200);
            (MarkOneRead "n2", [Fails "unavailable"], at_second 1700000300)]))
    !! "n2"
  = Some (sample_notification "alice" true None)
  ∧ ∀ n', notifications
            (db (step (world_of inbox_store [])
                   (CreateNotification "alice" "again" "info", [],
                    (at_second 1700000200)))) !! "0" = Some n' →
          n_read n' = false.
Proof.
  split.
  - apply (proj2 (proj2 read_flag_one_way)); reflexivity.
  - intros n'. apply (proj1 (proj2 read_flag_one_way)). reflexivity.
Defined.

(* ===================================================================== *)
(** * Escaping *)

Lemma string_app_cons (x : ascii) (a b : string) :
  String x a +:+ b = String x (a +:+ b).
Proof. reflexivity. Qed.

Lemma string_app_assoc (a b c : string) : (a +:+ b) +:+ c = a +:+ (b +:+ c).
Proof.
  induction a as [|x a IH]; [done|]. rewrite !string_app_cons. by rewrite IH.
Qed.

Lemma replace_all_app c rep s t :
  replace_all c rep (s +:+ t) = replace_all c rep s +:+ replace_all c rep t.
Proof.
  induction s as [|a s IH]; [done|]. rewrite string_app_cons. simpl.
  destruct (Ascii.eqb a c); rewrite IH; [|done].
  by rewrite string_app_assoc.
Qed.

Lemma escHtml_escape s : escHtml s = escape s.
Proof.
  unfold escHtml. induction s as [|c s IH]; [done|].
  simpl replace_all. simpl escape. unfold escape_char.
  destruct (Ascii.eqb c "&") eqn:Hamp.
  { rewrite !replace_all_app, IH. done. }
  simpl replace_all.
  destruct (Ascii.eqb c "<") eqn:Hlt.
  { rewrite !replace_all_app, IH. done. }
  simpl replace_all.
  destruct (Ascii.eqb c ">") eqn:Hgt; by rewrite IH.
Qed.

Lemma unescape_escape s : unescape (escape s) = s.
Proof.
  induction s as [|c s IH]; [done|].
  simpl escape. unfold escape_char.
  destruct (Ascii.eqb c "&") eqn:Hamp.
  { apply Ascii.eqb_eq in Hamp as ->.
    change (unescape ("&amp;" +:+ escape s))
      with (String "&" (unescape (escape s))).
    by rewrite IH. }
  destruct (Ascii.eqb c "<") eqn:Hlt.
  { apply Ascii.eqb_eq in Hlt as ->.
    change (unescape ("&lt;" +:+ escape s))
      with (String "<" (unescape (escape s))).
    by rewrite IH. }
  destruct (Ascii.eqb c ">") eqn:Hgt.
  { apply Ascii.eqb_eq in Hgt as ->.
    change (unescape ("&gt;" +:+ escape s))
      with (String ">" (unescape (escape s))).
    by rewrite IH. }
  change (String c "" +:+ escape s) with (String c (escape s)).
  assert (unescape (String c (escape s)) = String c (unescape (escape s))) as ->;
    [|by rewrite IH].
  apply Ascii.eqb_neq in Hamp.
  destruct c as [[] [] [] [] [] [] [] []]; try done.
Qed.

(** The characters of a string. *)
Lemma chars_app (a b : string) :
  list_ascii_of_string (a +:+ b)
  = (list_ascii_of_string a ++ list_ascii_of_string b)%list.
Proof.
  induction a as [|x a IH]; [done|]. rewrite string_app_cons. simpl.
  by rewrite IH.
Qed.

Lemma escape_no_angle s c :
  c ∈ list_ascii_of_string (escape s) → c ≠ "<"%char ∧ c ≠ ">"%char.
Proof.
  induction s as [|a s IH]; simpl escape.
  - intros Hin. by apply elem_of_nil in Hin.
  - rewrite chars_app, elem_of_app. intros [Hin|Hin]; [|by apply IH].
    revert Hin. unfold escape_char.
    destruct (Ascii.eqb a "&"); [|destruct (Ascii.eqb a "<") eqn:Hlt;
      [|destruct (Ascii.eqb a ">") eqn:Hgt]]; simpl; intros Hin.
    + repeat (apply elem_of_cons in Hin as [->|Hin]; [done|]).
      by apply elem_of_nil in Hin.
    + repeat (apply elem_of_cons in Hin as [->|Hin]; [done|]).
      by apply elem_of_nil in Hin.
    + repeat (apply elem_of_cons in Hin as [->|Hin]; [done|]).
      by apply elem_of_nil in Hin.
    + apply elem_of_cons in Hin as [->|Hin]; [|by apply elem_of_nil in Hin].
      apply Ascii.eqb_neq in Hlt, Hgt. done.
Qed.

(** X1. [escHtml] replaces the ampersand first, so the three replacements
    never touch each other's output: the result is the text escaped
    character by character.  It holds no "<" and no ">", and the text can
    be read back from it, so two different texts never render alike. *)
Theorem escHtml_safe_and_faithful :
  (∀ s, escHtml s = escape s)
  ∧ (∀ s c, c ∈ list_ascii_of_string (escHtml s) →
            c ≠ "<"%char ∧ c ≠ ">"%char)
  ∧ (∀ s, unescape (escHtml s) = s)
  ∧ (∀ s t, escHtml s = escHtml t → s = t).
Proof.
  split; [apply escHtml_escape|]. split; [|split].
  - intros s c. rewrite escHtml_escape. apply escape_no_angle.
  - intros s. by rewrite escHtml_escape, unescape_escape.
  - intros s t Heq. apply (f_equal unescape) in Heq.
    by rewrite !escHtml_escape, !unescape_escape in Heq.
Qed.

(** X2. [timeAgo] never shows a zero or an overflowing count: under a
    minute (or for a timestamp ahead of the clock, or a missing one) it says
    "just now"; then minutes from 1 to 59, hours from 1 to 23, and days
    from 1 on. *)
Theorem timeAgo_buckets (t nowMs : Z) :
  (∀ now, timeAgo None now = "just now")
  ∧ ((nowMs - t < 60000)%Z → timeAgo (Some t) nowMs = "just now")
  ∧ ((60000 ≤ nowMs - t < 3600000)%Z →
     ∃ n, (1 ≤ n ≤ 59)%Z ∧ n = ((nowMs - t) / 60000)%Z
          ∧ timeAgo (Some t) nowMs = pretty n +:+ "m ago")
  ∧ ((3600000 ≤ nowMs - t < 86400000)%Z →
     ∃ n, (1 ≤ n ≤ 23)%Z ∧ n = ((nowMs - t) / 3600000)%Z
          ∧ timeAgo (Some t) nowMs = pretty n +:+ "h ago")
  ∧ ((86400000 ≤ nowMs - t)%Z →
     ∃ n, (1 ≤ n)%Z ∧ n = ((nowMs - t) / 86400000)%Z
          ∧ timeAgo (Some t) nowMs = pretty n +:+ "d ago").
Proof.
  split; [done|]. unfold timeAgo. set (x := (nowMs - t)%Z).
  assert (∀ k, (0 < k)%Z → (x / 1000 / k = x / (1000 * k))%Z) as Hdiv
    by (intros k Hk; apply Z.div_div; lia).
  split; [|split; [|split]].
  - intros Hx. rewrite (proj2 (Z.ltb_lt (x / 1000) 60)); [done|].
    apply Z.div_lt_upper_bound; lia.
  - intros [Hlo Hhi].
    rewrite (proj2 (Z.ltb_ge (x / 1000) 60)) by (apply Z.div_le_lower_bound; lia).
    rewrite (proj2 (Z.ltb_lt (x / 1000) 3600))
      by (apply Z.div_lt_upper_bound; lia).
    exists (x / 60000)%Z. rewrite (Hdiv 60%Z) by lia. simpl.
    assert (x / 60000 < 60)%Z by (apply Z.div_lt_upper_bound; lia).
    assert (1 ≤ x / 60000)%Z by (apply Z.div_le_lower_bound; lia).
    split; [lia | by split].
  - intros [Hlo Hhi].
    rewrite (proj2 (Z.ltb_ge (x / 1000) 60)) by (apply Z.div_le_lower_bound; lia).
    rewrite (proj2 (Z.ltb_ge (x / 1000) 3600))
      by (apply Z.div_le_lower_bound; lia).
    rewrite (proj2 (Z.ltb_lt (x / 1000) 86400))
      by (apply Z.div_lt_upper_bound; lia).
    exists (x / 3600000)%Z. rewrite (Hdiv 3600%Z) by lia. simpl.
    assert (x / 3600000 < 24)%Z by (apply Z.div_lt_upper_bound; lia).
    assert (1 ≤ x / 3600000)%Z by (apply Z.div_le_lower_bound; lia).
    split; [lia | by split].
  - intros Hlo.
    rewrite (proj2 (Z.ltb_ge (x / 1000) 60)) by (apply Z.div_le_lower_bound; lia).
    rewrite (proj2 (Z.ltb_ge (x / 1000) 3600))
      by (apply Z.div_le_lower_bound; lia).
    rewrite (proj2 (Z.ltb_ge (x / 1000) 86400))
      by (apply Z.div_le_lower_bound; lia).
    exists (x / 86400000)%Z. rewrite (Hdiv 86400%Z) by lia. simpl.
    assert (1 ≤ x / 86400000)%Z by (apply Z.div_le_lower_bound; lia).
    split; [lia | by split].
Qed.

Lemma timeAgo_buckets_witness :
  timeAgo (Some 1700000000000%Z) 1699999999000%Z = "just now"
  ∧ (∃ n, (1 ≤ n ≤ 59)%Z ∧ n = ((1700000125000 - 1700000000000) / 60000)%Z
          ∧ timeAgo (Some 1700000000000%Z) 1700000125000%Z
            = pretty n +:+ "m ago")
  ∧ (∃ n, (1 ≤ n ≤ 23)%Z ∧ n = ((1700007300000 - 1700000000000) / 3600000)%Z
          ∧ timeAgo (Some 1700000000000%Z) 1700007300000%Z
            = pretty n +:+ "h ago")
  ∧ (∃ n, (1 ≤ n)%Z ∧ n = ((1700259200000 - 1700000000000) / 86400000)%Z
          ∧ timeAgo (Some 1700000000000%Z) 1700259200000%Z
            = pretty n +:+ "d ago").
Proof.
  split; [|split; [|split]].
  - apply (proj1 (proj2 (timeAgo_buckets 1700000000000 1699999999000))). lia.
  - apply (proj1 (proj2 (proj2
             (timeAgo_buckets 1700000000000 1700000125000)))). lia.
  - apply (proj1 (proj2 (proj2 (proj2
             (timeAgo_buckets 1700000000000 1700007300000))))). lia.
  - apply (proj2 (proj2 (proj2 (proj2
             (timeAgo_buckets 1700000000000 1700259200000))))). lia.
Defined.

(* ===================================================================== *)
(** * Substrings and keywords *)

Lemma includes_unfold s kw :
  includes s kw
  = startsWith s kw || match s with
                       | EmptyString => false
                       | String _ r => includes r kw
                       end.
Proof. by destruct s. Qed.

Lemma startsWith_spec s kw :
  startsWith s kw = true ↔ ∃ post, s = kw +:+ post.
Proof.
  revert s. induction kw as [|k kw IH]; intros s.
  - split; [intros _; by exists s | by destruct s].
  - destruct s as [|c s]; simpl.
    + split; [done | intros [post Hpost]; discriminate].
    + rewrite andb_true_iff, Ascii.eqb_eq, IH. split.
      * intros [-> [post ->]]. by exists post.
      * intros [post Hpost]. rewrite string_app_cons in Hpost.
        injection Hpost as -> ->. split; [done | by exists post].
Qed.

Lemma includes_Contains s kw : includes s kw = true ↔ Contains s kw.
Proof.
  split.
  - induction s as [|c s IH]; rewrite includes_unfold, orb_true_iff.
    + intros [[post ->]%startsWith_spec|]; [|done]. by exists "", post.
    + intros [[post ->]%startsWith_spec|Hin]; [by exists "", post|].
      destruct (IH Hin) as (pre & post & ->). by exists (String c pre), post.
  - intros (pre & post & ->). induction pre as [|c pre IH].
    + rewrite includes_unfold, orb_true_iff. left.
      apply startsWith_spec. by exists post.
    + rewrite string_app_cons, includes_unfold, orb_true_iff. by right.
Qed.

Lemma lower_char_idemp c : lower_char (lower_char c) = lower_char c.
Proof. destruct c as [[] [] [] [] [] [] [] []]; reflexivity. Qed.

Lemma toLowerCase_cons c s :
  toLowerCase (String c s) = String (lower_char c) (toLowerCase s).
Proof. reflexivity. Qed.

Lemma toLowerCase_idemp s : toLowerCase (toLowerCase s) = toLowerCase s.
Proof.
  induction s as [|c s IH]; [done|].
  by rewrite !toLowerCase_cons, lower_char_idemp, IH.
Qed.

Lemma toLowerCase_fixed s :
  (∀ c, c ∈ list_ascii_of_string s → lower_char c = c) → toLowerCase s = s.
Proof.
  induction s as [|a s IH]; intros Hc; [done|].
  rewrite toLowerCase_cons, (Hc a) by left. rewrite IH; [done|].
  intros c Hin. apply Hc. by right.
Qed.

Lemma toLowerCase_chars s c :
  c ∈ list_ascii_of_string (toLowerCase s) → lower_char c = c.
Proof.
  induction s as [|a s IH]; [intros Hin; by apply elem_of_nil in Hin|].
  rewrite toLowerCase_cons. simpl.
  intros [->|Hin]%elem_of_cons; [apply lower_char_idemp | by apply IH].
Qed.

(** A piece of [split] is made of characters of the string, none a space. *)
Lemma split_pieces s w c :
  w ∈ split s → c ∈ list_ascii_of_string w →
  c ∈ list_ascii_of_string s ∧ c ≠ " "%char.
Proof.
  revert w. induction s as [|a s IH]; intros w; simpl.
  - intros ->%list_elem_of_singleton Hc. by apply elem_of_nil in Hc.
  - destruct (Ascii.eqb_spec a " ") as [->|Ha].
    + intros [->|Hw]%elem_of_cons Hc; [by apply elem_of_nil in Hc|].
      destruct (IH w Hw Hc). split; [by right | done].
    + destruct (split s) as [|w0 ws] eqn:Hs.
      * intros ->%list_elem_of_singleton. simpl.
        intros [->|Hc]%elem_of_cons; [|by apply elem_of_nil in Hc].
        split; [left | done].
      * intros [->|Hw]%elem_of_cons Hc.
        -- simpl in Hc. apply elem_of_cons in Hc as [->|Hc].
           ++ split; [left | done].
           ++ destruct (IH w0 ltac:(left) Hc). split; [by right | done].
        -- destruct (IH w ltac:(by right) Hc). split; [by right | done].
Qed.

Lemma ascii_text_chars s :
  ascii_text s = true
  ↔ ∀ c, c ∈ list_ascii_of_string s → (nat_of_ascii c <? 128)%nat = true.
Proof.
  induction s as [|a s IH]; simpl.
  - split; [|done]. intros _ c Hc. by apply elem_of_nil in Hc.
  - rewrite andb_true_iff, IH. split.
    + intros [Ha Hs] c [->|Hc]%elem_of_cons; [done | by apply Hs].
    + intros Hc. split; [apply Hc; left|]. intros c Hin. apply Hc. by right.
Qed.

Lemma lower_char_ascii c :
  (nat_of_ascii c <? 128)%nat = true →
  (nat_of_ascii (lower_char c) <? 128)%nat = true.
Proof. destruct c as [[] [] [] [] [] [] [] []]; intros H; exact H || reflexivity. Qed.

Lemma ascii_text_toLowerCase s :
  ascii_text s = true → ascii_text (toLowerCase s) = true.
Proof.
  induction s as [|c s IH]; [done|]. simpl.
  intros [Hc Hs]%andb_true_iff. by rewrite lower_char_ascii, IH.
Qed.

Lemma String_length_ascii s :
  ascii_text s = true → String_length s = String.length s.
Proof.
  induction s as [|c s IH]; [done|]. simpl.
  intros [Hc Hs]%andb_true_iff. unfold code_units. by rewrite Hc, IH.
Qed.

(** X3. What [checkKeywordMatch] matches with, for a title of ASCII text:
    every keyword is ASCII text of more than three characters, holds no
    space and no upper-case letter; and the keywords do not depend on the
    case the title is written in. *)
Theorem keywords_shape (newTitle : string) :
  ascii_text newTitle = true →
  (∀ kw, kw ∈ keywords_of newTitle →
         ascii_text kw = true
         ∧ 3 < String_length kw
         ∧ String_length kw = String.length kw
         ∧ (" "%char ∉ list_ascii_of_string kw)
         ∧ toLowerCase kw = kw)
  ∧ keywords_of (toLowerCase newTitle) = keywords_of newTitle.
Proof.
  intros Hascii. split.
  - intros kw. unfold keywords_of.
    rewrite list_elem_of_In, filter_In, <- list_elem_of_In.
    intros [Hkw Hlen]. apply Nat.ltb_lt in Hlen.
    assert (ascii_text kw = true) as Hkwa.
    { apply ascii_text_chars. intros c Hc.
      destruct (split_pieces _ _ _ Hkw Hc) as [Hin _].
      by apply (proj1 (ascii_text_chars _) (ascii_text_toLowerCase _ Hascii)). }
    split; [done|]. split; [done|].
    split; [by apply String_length_ascii|]. split.
    + intros Hsp. by destruct (split_pieces _ _ _ Hkw Hsp).
    + apply toLowerCase_fixed. intros c Hc.
      destruct (split_pieces _ _ _ Hkw Hc) as [Hin _].
      by apply toLowerCase_chars in Hin.
  - unfold keywords_of. by rewrite toLowerCase_idemp.
Qed.

(* ===================================================================== *)
(** * Marking one notification read *)

Lemma put_put_notification id n n' s :
  put Notifications id n' (put Notifications id n s) = put Notifications id n' s.
Proof. unfold put. simpl. by rewrite insert_insert_eq. Qed.

Lemma put_same_notification id n s :
  notifications s !! id = Some n → put Notifications id n s = s.
Proof.
  intros Hn. unfold put. simpl. rewrite insert_id by done. by destruct s.
Qed.

(** X4. [markOneRead] touches one notification only: every other
    notification and every other collection is as before, whatever the
    store answers.  On a missing identifier it throws "not-found" and
    changes nothing.  It is idempotent: when a call has returned, a second
    call on the resulting store leaves the store as it is. *)
Theorem markOneRead_local_and_idempotent (notifId : string) (w : World) :
  (∀ id, id ≠ notifId →
         notifications (db (markOneRead notifId w).2) !! id
         = notifications (db w) !! id)
  ∧ same_records (db w) (db (markOneRead notifId w).2)
  ∧ (notifications (db w) !! notifId = None →
     next_outcome w = Succeeds →
     markOneRead notifId w
     = (Thrown (FirestoreError "not-found"), consume w))
  ∧ (∀ w1, markOneRead notifId w = (Normal tt, w1) →
       (∃ n, notifications (db w) !! notifId = Some n
             ∧ notifications (db w1) !! notifId = Some (mark_read n))
       ∧ ∀ w2, db w2 = db w1 → db (markOneRead notifId w2).2 = db w1).
Proof.
  unfold markOneRead. rewrite updateDoc_run.
  split; [|split; [|split]].
  - intros id Hid. destruct (next_outcome w); [|done].
    destruct (coll_get Notifications (db w) !! notifId); [|done].
    simpl. by rewrite lookup_insert_ne.
  - destruct (next_outcome w); [|done].
    by destruct (coll_get Notifications (db w) !! notifId).
  - intros Hnone ->. simpl. by rewrite Hnone.
  - intros w1 Hrun. destruct (next_outcome w); [|done].
    simpl in Hrun. destruct (notifications (db w) !! notifId) as [n|] eqn:Hn;
      [|done].
    injection Hrun as <-. split.
    + exists n. split; [done|]. simpl. apply lookup_insert_eq.
    + intros w2 Hw2. rewrite updateDoc_run.
      destruct (next_outcome w2); [|done]. simpl. rewrite Hw2. simpl.
      rewrite lookup_insert_eq. simpl.
      change (put Notifications notifId (mark_read (mark_read n))
                (put Notifications notifId (mark_read n) (db w))
              = put Notifications notifId (mark_read n) (db w)).
      apply put_put_notification.
Qed.

Lemma markOneRead_local_and_idempotent_witness :
  markOneRead "n9" (world_of inbox_store [])
  = (Thrown (FirestoreError "not-found"), consume (world_of inbox_store []))
  ∧ ∃ n, notifications inbox_store !! "n1" = Some n
         ∧ notifications
             (db (markOneRead "n1" (world_of inbox_store [])).2) !! "n1"
           = Some (mark_read n).
Proof.
  split.
  - apply (proj1 (proj2 (proj2
             (markOneRead_local_and_idempotent "n9" (world_of inbox_store [])))));
      reflexivity.
  - apply (proj2 (proj2 (proj2
             (markOneRead_local_and_idempotent "n1" (world_of inbox_store []))))
             (markOneRead "n1" (world_of inbox_store [])).2).
    reflexivity.
Defined.

(* ===================================================================== *)
(** * Status updates whose notification fails *)

(** X5. The status write and the owner's notification are not one
    transaction: when the write succeeds and the notification's write
    fails, [updateComplaintStatus] and [updateLostFoundStatus] still return
    normally, the record keeps the new status, no notification exists, and
    the failure shows on the console only. *)
Theorem status_kept_when_notification_fails
    (id newStatus owner code : string) (w : World) :
  next_outcome w = Succeeds →
  next_outcome (consume w) = Fails code →
  (∀ c, complaints (db w) !! id = Some c →
     ∃ w', updateComplaintStatus id newStatus owner w = (Normal tt, w')
       ∧ db w' = put Complaints id (set_c_status newStatus c) (db w)
       ∧ console w' = ("Create notification error:",
                       Some (FirestoreError code)) :: console w)
  ∧ (∀ i, lost_found_items (db w) !! id = Some i →
       ∃ w', updateLostFoundStatus id newStatus owner w = (Normal tt, w')
         ∧ db w' = put LostFoundItems id (set_lf_status newStatus i) (db w)
         ∧ console w' = ("Create notification error:",
                         Some (FirestoreError code)) :: console w).
Proof.
  intros H1 H2. split.
  - intros c Hc. unfold updateComplaintStatus, try_catch, bind.
    rewrite updateDoc_run, H1. simpl. rewrite Hc.
    rewrite createNotification_run.
    change (next_outcome (set_db _ (consume w))) with (next_outcome (consume w)).
    rewrite H2.
    match goal with
    | |- context [showToast ?m ?t ?w0] =>
        destruct (showToast_run m t w0) as (w' & -> & Hdb & _ & Hc')
    end.
    exists w'. by rewrite Hdb, Hc'.
  - intros i Hi. unfold updateLostFoundStatus, try_catch, bind.
    rewrite updateDoc_run, H1. simpl. rewrite Hi.
    rewrite createNotification_run.
    change (next_outcome (set_db _ (consume w))) with (next_outcome (consume w)).
    rewrite H2.
    match goal with
    | |- context [showToast ?m ?t ?w0] =>
        destruct (showToast_run m t w0) as (w' & -> & Hdb & _ & Hc')
    end.
    exists w'. by rewrite Hdb, Hc'.
Qed.

Lemma status_kept_when_notification_fails_witness :
  ∃ w', updateComplaintStatus "c1" "In Progress" "alice"
          (world_of complaint_store [Succeeds; Fails "unavailable"])
        = (Normal tt, w')
    ∧ db w' = put Complaints "c1" (set_c_status "In Progress" sample_complaint)
                complaint_store
    ∧ console w' = [("Create notification error:",
                     Some (FirestoreError "unavailable"))].
Proof.
  apply (proj1 (status_kept_when_notification_fails "c1" "In Progress" "alice"
                  "unavailable"
                  (world_of complaint_store [Succeeds; Fails "unavailable"])
                  eq_refl eq_refl) sample_complaint).
  reflexivity.
Defined.

(* ===================================================================== *)
(** * Submitting a complaint *)

Lemma submitComplaint_ok userId userName formData w :
  next_outcome w = Succeeds →
  ∃ w', submitComplaint userId userName formData w = (Normal true, w')
    ∧ db w' = put Complaints (next_id Complaints (db w))
                (new_complaint userId userName formData (now w)) (db w)
    ∧ console w' = console w.
Proof.
  intros H1. unfold submitComplaint, try_catch, bind, serverTimestamp.
  rewrite addDoc_run, H1.
  match goal with
  | |- context [showToast ?m ?t ?w0] =>
      destruct (showToast_run m t w0) as (w' & -> & Hdb & _ & Hc')
  end.
  exists w'. by rewrite Hdb, Hc'.
Qed.

Lemma submitComplaint_fails userId userName formData w code :
  next_outcome w = Fails code →
  ∃ w', submitComplaint userId userName formData w = (Normal false, w')
    ∧ db w' = db w
    ∧ (toastContainer w = true →
       head (toasts w')
       = Some (if String.eqb code "permission-denied"
               then "Permission denied. Check Firestore security rules."
               else if String.eqb code "unauthenticated"
               then "Not logged in. Please login again."
               else if String.eqb code "unavailable"
               then "Network error. Check your internet connection."
               else "Failed to submit complaint.", "error")).
Proof.
  intros H1. unfold submitComplaint, try_catch, bind at 1, serverTimestamp.
  unfold bind at 1. rewrite addDoc_run, H1. cbv beta iota.
  assert (∀ msg : Js string,
            (∀ w0, ∃ w1, msg w0 = (Normal (
               if String.eqb code "permission-denied"
               then "Permission denied. Check Firestore security rules."
               else if String.eqb code "unauthenticated"
               then "Not logged in. Please login again."
               else if String.eqb code "unavailable"
               then "Network error. Check your internet connection."
               else "Failed to submit complaint."), w1)
               ∧ db w1 = db w0 ∧ toastContainer w1 = toastContainer w0
               ∧ toasts w1 = toasts w0) →
            ∃ w',
              (exec console_error "❌ SUBMIT COMPLAINT ERROR ===" None;
               exec console_error "Error object:" (Some (FirestoreError code));
               exec console_error "Error code:" (Some (FirestoreError code));
               exec console_error "Error message:" (Some (FirestoreError code));
               do errorMessage <- msg;
               exec showToast errorMessage "error"; ret false) (consume w)
              = (Normal false, w')
              ∧ db w' = db w
              ∧ (toastContainer w = true →
                 head (toasts w') = Some (
                   if String.eqb code "permission-denied"
                   then "Permission denied. Check Firestore security rules."
                   else if String.eqb code "unauthenticated"
                   then "Not logged in. Please login again."
                   else if String.eqb code "unavailable"
                   then "Network error. Check your internet connection."
                   else "Failed to submit complaint.", "error"))) as Hgen.
  { intros msg Hmsg. unfold bind, console_error. simpl.
    match goal with
    | |- context [msg ?w0] =>
        destruct (Hmsg w0) as (w1 & -> & Hdb1 & Htc & Hts)
    end.
    unfold showToast, ret. simpl in Htc. rewrite Htc.
    destruct (toastContainer w) eqn:Ht; eexists; (split; [reflexivity|]);
      simpl; rewrite ?Hdb1, ?Hts; by split. }
  simpl code_is.
  destruct (String.eqb code "permission-denied");
    [|destruct (String.eqb code "unauthenticated");
      [|destruct (String.eqb code "unavailable")]];
    apply Hgen; intros w0; by eexists.
Qed.

(** X6. [submitComplaint] never throws.  It returns true exactly when the
    store accepted the write, and then the store is the old one plus the
    one complaint of the form, owned by the submitter and in status
    "Submitted"; it returns false with the store unchanged otherwise, and
    the toast names the cause for the three codes the code knows. *)
Theorem submitComplaint_stores_or_reports
    (userId userName : string) (formData : ComplaintForm) (w : World) :
  ∃ b w',
    submitComplaint userId userName formData w = (Normal b, w')
    ∧ (b = true ↔ next_outcome w = Succeeds)
    ∧ (if b then
         complaints (db w) !! next_id Complaints (db w) = None
         ∧ db w' = put Complaints (next_id Complaints (db w))
                     (new_complaint userId userName formData (now w)) (db w)
       else db w' = db w)
    ∧ (∀ code, next_outcome w = Fails code → toastContainer w = true →
         head (toasts w')
         = Some (if String.eqb code "permission-denied"
                 then "Permission denied. Check Firestore security rules."
                 else if String.eqb code "unauthenticated"
                 then "Not logged in. Please login again."
                 else if String.eqb code "unavailable"
                 then "Network error. Check your internet connection."
                 else "Failed to submit complaint.", "error")).
Proof.
  destruct (next_outcome w) as [|code] eqn:H1.
  - destruct (submitComplaint_ok userId userName formData w H1)
      as (w' & Hrun & Hdb & _).
    exists true, w'. split; [done|]. split; [done|]. split; [|done].
    split; [apply (next_id_fresh Complaints) | done].
  - destruct (submitComplaint_fails userId userName formData w code H1)
      as (w' & Hrun & Hdb & Htoast).
    exists false, w'. split; [done|]. split; [done|]. split; [done|].
    intros code' [= <-]. exact Htoast.
Qed.

Lemma submitComplaint_stores_or_reports_witness :
  ∃ b w',
    submitComplaint "alice" "Alice" sample_complaint_form
      (world_of empty_store [Fails "unavailable"]) = (Normal b, w')
    ∧ b = false
    ∧ db w' = empty_store
    ∧ head (toasts w')
      = Some ("Network error. Check your internet connection.", "error").
Proof.
  destruct (submitComplaint_stores_or_reports "alice" "Alice"
              sample_complaint_form (world_of empty_store [Fails "unavailable"]))
    as (b & w' & Hrun & Hb & Hdb & Htoast).
  exists b, w'. split; [exact Hrun|].
  assert (b = false) as ->.
  { destruct b; [|done]. by destruct (proj1 Hb eq_refl). }
  split; [done|]. split; [exact Hdb|].
  apply (Htoast "unavailable"); reflexivity.
Defined.

(* ===================================================================== *)
(** * What an operation can do to the store *)

Section PreservesDb.
Context (R : relation Store) `{!PreOrder R}.

Lemma preserves_db_same {A} (c : Js A) :
  (∀ w, db (c w).2 = db w) → preserves_db R c.
Proof. intros H w. by rewrite H. Qed.

Lemma preserves_db_ret {A} (a : A) : preserves_db R (ret a).
Proof. by apply preserves_db_same. Qed.

Lemma preserves_db_bind {A B} (m : Js A) (k : A → Js B) :
  preserves_db R m → (∀ a, preserves_db R (k a)) → preserves_db R (bind m k).
Proof.
  intros Hm Hk w. unfold bind. specialize (Hm w).
  destruct (m w) as [[a|e] w']; simpl in *; [|done].
  etrans; [exact Hm | apply Hk].
Qed.

Lemma preserves_db_try_catch {A} (body : Js A) (handler : JsError → Js A) :
  preserves_db R body → (∀ e, preserves_db R (handler e)) →
  preserves_db R (try_catch body handler).
Proof.
  intros Hb Hh w. unfold try_catch. specialize (Hb w).
  destruct (body w) as [[a|e] w']; simpl in *; [done|].
  etrans; [exact Hb | apply Hh].
Qed.

Lemma preserves_db_forEach {A} (l : list A) (f : A → Js unit) :
  (∀ x, x ∈ l → preserves_db R (f x)) → preserves_db R (forEach l f).
Proof.
  induction l as [|x l IH]; intros Hf; simpl.
  - apply preserves_db_ret.
  - apply preserves_db_bind; [apply Hf; left|].
    intros _. apply IH. intros y Hy. apply Hf. by right.
Qed.

Lemma preserves_db_request : preserves_db R request.
Proof.
  apply preserves_db_same. intros w. unfold request.
  by destruct (next_outcome w).
Qed.

Lemma preserves_db_showToast msg type : preserves_db R (showToast msg type).
Proof.
  apply preserves_db_same. intros w. unfold showToast.
  by destruct (toastContainer w).
Qed.

Lemma preserves_db_console_error msg e : preserves_db R (console_error msg e).
Proof. by apply preserves_db_same. Qed.

Lemma preserves_db_serverTimestamp : preserves_db R serverTimestamp.
Proof. by apply preserves_db_same. Qed.

Lemma preserves_db_getDocs {A} (c : Collection A) q :
  preserves_db R (getDocs c q).
Proof.
  apply preserves_db_same. intros w. rewrite getDocs_run.
  by destruct (next_outcome w).
Qed.

Lemma preserves_db_addDoc {A} (c : Collection A) (d : A) :
  (∀ s, R s (put c (next_id c s) d s)) → preserves_db R (addDoc c d).
Proof.
  intros Hc w. rewrite addDoc_run.
  destruct (next_outcome w); [apply Hc | done].
Qed.

Lemma preserves_db_updateDoc {A} (c : Collection A) id (f : A → A) :
  (∀ s d, coll_get c s !! id = Some d → R s (put c id (f d) s)) →
  preserves_db R (updateDoc c id f).
Proof.
  intros Hc w. rewrite updateDoc_run.
  destruct (next_outcome w); [|done].
  destruct (coll_get c (db w) !! id) eqn:Hd; [by apply Hc | done].
Qed.

Lemma preserves_db_createNotification u m t :
  (∀ s z, R s (put Notifications (next_id Notifications s)
                 (new_notification u m t z) s)) →
  preserves_db R (createNotification u m t).
Proof.
  intros Hn w. rewrite createNotification_run.
  destruct (next_outcome w); [apply Hn | done].
Qed.

Lemma foldl_apply_update_None {A} (batch : list (string * (A → A))) :
  foldl apply_update None batch = None.
Proof. by induction batch. Qed.

Lemma batch_of_marks l s m' :
  (∀ s id n, notifications s !! id = Some n →
             R s (put Notifications id (mark_read n) s)) →
  foldl apply_update (Some (notifications s))
    (map (λ d : string * Notification, (d.1, mark_read)) l) = Some m' →
  R s (coll_set Notifications m' s).
Proof.
  intros Hmark. revert s. induction l as [|d l IH]; intros s Hfold;
    simpl in Hfold.
  - injection Hfold as <-. by rewrite coll_set_get_notifications.
  - destruct (notifications s !! d.1) as [n|] eqn:Hn;
      [|by rewrite foldl_apply_update_None in Hfold].
    etrans; [apply (Hmark s d.1 n Hn)|].
    apply (IH (put Notifications d.1 (mark_read n) s)). exact Hfold.
Qed.

Lemma preserves_db_markAllRead u :
  (∀ s id n, notifications s !! id = Some n →
             R s (put Notifications id (mark_read n) s)) →
  preserves_db R (markAllRead u).
Proof.
  intros Hmark w. unfold markAllRead, bind. rewrite getDocs_run.
  destruct (next_outcome w); [|done].
  unfold batch_commit, bind, request.
  destruct (next_outcome (consume w)); [|done]. simpl.
  destruct (foldl _ _ _) as [m'|] eqn:Hfold; [|done]. simpl.
  by apply (batch_of_marks _ (db w) m' Hmark) in Hfold.
Qed.
End PreservesDb.

Lemma requests_succeed_cons n w :
  next_outcome w = Succeeds → requests_succeed n (consume w) →
  requests_succeed (S n) w.
Proof.
  unfold requests_succeed, next_outcome, consume. simpl.
  destruct (pending w) as [|o p]; simpl; [done|].
  by intros ->.
Qed.

Lemma requests_succeed_0 w : requests_succeed 0 w.
Proof. done. Qed.

Lemma registerVolunteer_respects R u n f :
  respects R → preserves_db R (registerVolunteer u n f).
Proof.
  intros HR w. pose proof (respects_preorder R HR) as Hpre.
  destruct (next_outcome w) as [|code] eqn:H1.
  - destruct (query_docs
                (λ v, where_userId u v && String.eqb (v_eventId v) (vf_eventId f))
                (volunteers (db w))) as [|[id v] l] eqn:Hq.
    + assert (∀ id v, volunteers (db w) !! id = Some v →
                      ¬ registered u (vf_eventId f) v) as Hnone.
      { intros id v Hv Hreg%registered_query.
        eapply query_docs_nil in Hq; [|exact Hv]. simpl in Hq. congruence. }
      destruct (next_outcome (consume w)) as [|code] eqn:H2.
      * destruct (registerVolunteer_accepts u n f w Hnone) as (w' & -> & Hdb).
        { apply requests_succeed_cons; [done|].
          apply requests_succeed_cons; [done | apply requests_succeed_0]. }
        simpl. rewrite Hdb. by apply respects_register.
      * destruct (registerVolunteer_write_fails u n f w code H1 Hnone H2)
          as (w' & -> & Hdb). simpl. by rewrite Hdb.
    + assert ((id, v) ∈ query_docs
                (λ v, where_userId u v && String.eqb (v_eventId v) (vf_eventId f))
                (volunteers (db w))) as [Hv Hreg]%elem_of_query_docs
        by (rewrite Hq; left).
      apply registered_query in Hreg.
      destruct (registerVolunteer_duplicate u n f w id v H1 Hv Hreg)
        as (w' & -> & Hdb). simpl. by rewrite Hdb.
  - destruct (registerVolunteer_read_fails u n f w code H1)
      as (w' & -> & Hdb). simpl. by rewrite Hdb.
Qed.

Ltac pres_db lem := apply lem; [apply _ | ..].

Lemma checkKeywordMatch_respects R i t u :
  respects R → preserves_db R (checkKeywordMatch i t u).
Proof.
  intros HR. pose proof (respects_preorder R HR) as Hpre.
  unfold checkKeywordMatch. pres_db @preserves_db_try_catch.
  - destruct (List.length (keywords_of t) =? 0)%nat; [pres_db @preserves_db_ret|].
    pres_db @preserves_db_bind; [pres_db @preserves_db_getDocs|].
    intros allItems. pres_db @preserves_db_forEach. intros docSnap _.
    unfold match_item.
    destruct (String.eqb _ _); [pres_db @preserves_db_ret|].
    destruct (existsb _ _); [|pres_db @preserves_db_ret].
    pres_db @preserves_db_bind.
    { pres_db @preserves_db_createNotification. intros s z.
      apply respects_notify, HR. }
    intros _. destruct (negb _); [|pres_db @preserves_db_ret].
    pres_db @preserves_db_createNotification. intros s z.
    apply respects_notify, HR.
  - intros e. pres_db @preserves_db_console_error.
Qed.

Lemma submitLostFoundItem_respects R u n f :
  respects R → preserves_db R (submitLostFoundItem u n f).
Proof.
  intros HR. pose proof (respects_preorder R HR) as Hpre.
  unfold submitLostFoundItem. pres_db @preserves_db_try_catch.
  - pres_db @preserves_db_bind.
    { destruct (fd_image f); [|pres_db @preserves_db_ret].
      pres_db @preserves_db_bind; [pres_db @preserves_db_request|]. intros _.
      pres_db @preserves_db_bind; [pres_db @preserves_db_request|]. intros _.
      pres_db @preserves_db_ret. }
    intros imageURL.
    pres_db @preserves_db_bind; [pres_db @preserves_db_serverTimestamp|].
    intros createdAt. pres_db @preserves_db_bind.
    { pres_db @preserves_db_addDoc. intros s. apply respects_item, HR. }
    intros itemRef.
    pres_db @preserves_db_bind; [pres_db @preserves_db_showToast|]. intros _.
    pres_db @preserves_db_bind; [by apply checkKeywordMatch_respects|].
    intros _. pres_db @preserves_db_ret.
  - intros e. pres_db @preserves_db_bind; [pres_db @preserves_db_console_error|].
    intros _. pres_db @preserves_db_bind; [pres_db @preserves_db_showToast|].
    intros _. pres_db @preserves_db_ret.
Qed.

Lemma submitComplaint_respects R u n f :
  respects R → preserves_db R (submitComplaint u n f).
Proof.
  intros HR. pose proof (respects_preorder R HR) as Hpre.
  intros w. destruct (next_outcome w) as [|code] eqn:H1.
  - destruct (submitComplaint_ok u n f w H1) as (w' & -> & Hdb & _). simpl.
    rewrite Hdb. apply respects_complaint, HR.
  - destruct (submitComplaint_fails u n f w code H1) as (w' & -> & Hdb & _).
    simpl. by rewrite Hdb.
Qed.

Lemma update_status_respects R i s o :
  respects R →
  preserves_db R (updateLostFoundStatus i s o)
  ∧ preserves_db R (updateComplaintStatus i s o).
Proof.
  intros HR. pose proof (respects_preorder R HR) as Hpre. split.
  - unfold updateLostFoundStatus. pres_db @preserves_db_try_catch.
    + pres_db @preserves_db_bind.
      { pres_db @preserves_db_updateDoc. intros s0 d Hd.
        by apply respects_item_status. }
      intros _. pres_db @preserves_db_bind.
      { pres_db @preserves_db_createNotification. intros s0 z.
        apply respects_notify, HR. }
      intros _. pres_db @preserves_db_showToast.
    + intros e. pres_db @preserves_db_bind; [pres_db @preserves_db_console_error|].
      intros _. pres_db @preserves_db_showToast.
  - unfold updateComplaintStatus. pres_db @preserves_db_try_catch.
    + pres_db @preserves_db_bind.
      { pres_db @preserves_db_updateDoc. intros s0 d Hd.
        by apply respects_complaint_status. }
      intros _. pres_db @preserves_db_bind.
      { pres_db @preserves_db_createNotification. intros s0 z.
        apply respects_notify, HR. }
      intros _. pres_db @preserves_db_showToast.
    + intros e. pres_db @preserves_db_bind; [pres_db @preserves_db_console_error|].
      intros _. pres_db @preserves_db_bind; [pres_db @preserves_db_console_error|].
      intros _. pres_db @preserves_db_showToast.
Qed.

Lemma broadcastAnnouncement_respects R msg :
  respects R → preserves_db R (broadcastAnnouncement msg).
Proof.
  intros HR. pose proof (respects_preorder R HR) as Hpre.
  unfold broadcastAnnouncement.
  destruct (String.eqb _ _); [pres_db @preserves_db_showToast|].
  pres_db @preserves_db_bind; [pres_db @preserves_db_getDocs|]. intros usersSnap.
  pres_db @preserves_db_bind; [|intros _; pres_db @preserves_db_showToast].
  pres_db @preserves_db_forEach. intros d _.
  pres_db @preserves_db_createNotification. intros s z.
  apply respects_notify, HR.
Qed.

(** Every operation is a sequence of the writes [R] respects. *)
Lemma act_respects R (a : Action) : respects R → preserves_db R (act a).
Proof.
  intros HR. pose proof (respects_preorder R HR) as Hpre.
  destruct a as [op|u n f]; [destruct op|]; simpl.
  - pres_db @preserves_db_createNotification. intros s z.
    apply respects_notify, HR.
  - pres_db @preserves_db_markAllRead. apply respects_mark, HR.
  - unfold markOneRead. pres_db @preserves_db_updateDoc. intros s d Hd.
    by apply respects_mark.
  - pres_db @preserves_db_bind; [by apply submitLostFoundItem_respects|].
    intros _. pres_db @preserves_db_ret.
  - by apply checkKeywordMatch_respects.
  - by apply update_status_respects.
  - by apply update_status_respects.
  - pres_db @preserves_db_bind; [by apply registerVolunteer_respects|].
    intros _. pres_db @preserves_db_ret.
  - by apply broadcastAnnouncement_respects.
  - pres_db @preserves_db_bind; [by apply submitComplaint_respects|].
    intros _. pres_db @preserves_db_ret.
Qed.

Lemma act_run_respects R steps w : respects R → R (db w) (db (act_run w steps)).
Proof.
  intros HR. pose proof (respects_preorder R HR) as Hpre.
  revert w. induction steps as [|[[a p] t] steps IH]; intros w; [done|].
  simpl. etrans; [|apply IH].
  apply (act_respects R a HR (set_env p t w)).
Qed.

(* ===================================================================== *)
(** * Invariants of the store *)

Lemma set_lf_status_same i : set_lf_status (lf_status i) i = i.
Proof. by destruct i. Qed.

Lemma set_c_status_same c : set_c_status (c_status c) c = c.
Proof. by destruct c. Qed.

#[global] Instance evolves_preorder : PreOrder evolves.
Proof.
  split.
  - intros s. split; [by left|]. split; [|split; [|done]].
    + intros id i Hi. exists (lf_status i). by rewrite set_lf_status_same.
    + intros id c Hc. exists (c_status c). by rewrite set_c_status_same.
  - intros s1 s2 s3 (Hn1 & Hi1 & Hc1 & Hv1 & Hu1) (Hn2 & Hi2 & Hc2 & Hv2 & Hu2).
    split; [|split; [|split; [|split]]].
    + intros id n Hn. destruct (Hn1 id n Hn) as [H|H].
      * apply (Hn2 id n H).
      * right. by destruct (Hn2 id _ H).
    + intros id i Hi. destruct (Hi1 id i Hi) as [st1 H1].
      destruct (Hi2 id _ H1) as [st2 H2]. by exists st2.
    + intros id c Hc. destruct (Hc1 id c Hc) as [st1 H1].
      destruct (Hc2 id _ H1) as [st2 H2]. by exists st2.
    + intros id v Hv. by apply Hv2, Hv1.
    + congruence.
Qed.

Lemma evolves_respected : respects evolves.
Proof.
  assert (∀ s, evolves s s) as Hrefl by (intros s; reflexivity).
  split; [apply _|..].
  - intros s u m t z. destruct (Hrefl s) as (_ & Hi & Hc & Hv & Hu).
    split; [|done]. intros id n Hn. left. simpl.
    rewrite lookup_insert_ne; [done|]. intros <-.
    pose proof (next_id_fresh Notifications s) as Hf. simpl in Hf. congruence.
  - intros s id n Hn. destruct (Hrefl s) as (_ & Hi & Hc & Hv & Hu).
    split; [|done]. intros id' n' Hn'. simpl.
    destruct (decide (id = id')) as [<-|Hne].
    + right. rewrite lookup_insert_eq. congruence.
    + left. by rewrite lookup_insert_ne.
  - intros s i. destruct (Hrefl s) as (Hn & _ & Hc & Hv & Hu).
    split; [done|]. split; [|done]. intros id i' Hi'.
    exists (lf_status i'). rewrite set_lf_status_same. simpl.
    rewrite lookup_insert_ne; [done|]. intros <-.
    pose proof (next_id_fresh LostFoundItems s) as Hf. simpl in Hf. congruence.
  - intros s id i st Hi. destruct (Hrefl s) as (Hn & _ & Hc & Hv & Hu).
    split; [done|]. split; [|done]. intros id' i' Hi'. simpl.
    destruct (decide (id = id')) as [<-|Hne].
    + exists st. rewrite lookup_insert_eq. congruence.
    + exists (lf_status i'). rewrite set_lf_status_same.
      by rewrite lookup_insert_ne.
  - intros s u n f z. destruct (Hrefl s) as (Hn & Hi & _ & Hv & Hu).
    split; [done|]. split; [done|]. split; [|done]. intros id c' Hc'.
    exists (c_status c'). rewrite set_c_status_same. simpl.
    rewrite lookup_insert_ne; [done|]. intros <-.
    pose proof (next_id_fresh Complaints s) as Hf. simpl in Hf. congruence.
  - intros s id c st Hc. destruct (Hrefl s) as (Hn & Hi & _ & Hv & Hu).
    split; [done|]. split; [done|]. split; [|done]. intros id' c' Hc'. simpl.
    destruct (decide (id = id')) as [<-|Hne].
    + exists st. rewrite lookup_insert_eq. congruence.
    + exists (c_status c'). rewrite set_c_status_same.
      by rewrite lookup_insert_ne.
  - intros s u n f z _. destruct (Hrefl s) as (Hn & Hi & Hc & _ & Hu).
    split; [done|]. split; [done|]. split; [done|]. split; [|done].
    intros id v Hv. simpl. rewrite lookup_insert_ne; [done|]. intros <-.
    pose proof (next_id_fresh Volunteers s) as Hf. simpl in Hf. congruence.
Qed.

(** X7. Through every sequence of operations, under every answer of the
    store, no document is ever deleted or re-keyed, and the only fields
    that ever change are the read flag of a notification (to read) and the
    status of an item or of a complaint: owner, title, message, category
    and timestamp stay as written; registrations and accounts never
    change. *)
Theorem documents_only_evolve
    (steps : list (Action * list Outcome * Timestamp)) (w : World) :
  evolves (db w) (db (act_run w steps)).
Proof. apply act_run_respects, evolves_respected. Qed.

Lemma keeps_unique_respected : respects keeps_unique.
Proof.
  split; try (intros; intros Hkeep; exact Hkeep).
  - split; [by intros s H | intros s1 s2 s3 H12 H23 H; by apply H23, H12].
  - intros s u n f z Hnone Huniq id1 id2 v1 v2. simpl.
    pose proof (next_id_fresh Volunteers s) as Hf. simpl in Hf.
    intros [[<- <-]|[Hne1 H1]]%lookup_insert_Some
           [[<- <-]|[Hne2 H2]]%lookup_insert_Some Hu He; try done.
    + exfalso. apply (Hnone id2 v2 H2). by split.
    + exfalso. apply (Hnone id1 v1 H1). by split.
    + by apply (Huniq id1 id2 v1 v2).
Qed.

(** X8. Run one after the other, the operations keep the registrations
    unique: if no two registrations share user and event, then none do
    after any sequence of operations, whatever the store answers. *)
Theorem registrations_stay_unique
    (steps : list (Action * list Outcome * Timestamp)) (w : World) :
  unique_registrations (volunteers (db w)) →
  unique_registrations (volunteers (db (act_run w steps))).
Proof. apply (act_run_respects keeps_unique), keeps_unique_respected. Qed.

Lemma registrations_stay_unique_witness :
  unique_registrations
    (volunteers
       (db (act_run (world_of empty_store [])
              [(Core (RegisterVolunteer "alice" "Alice" sample_volunteer_form),
                [], at_second 1700000000);
               (Core (RegisterVolunteer "alice" "Al" sample_volunteer_form),
                [], at_second 1700000100)]))).
Proof.
  apply registrations_stay_unique.
  intros id1 id2 v1 v2 H1. simpl in H1. by rewrite lookup_empty in H1.
Defined.

(* ===================================================================== *)
(** * Who a match notifies *)

#[global] Instance adds_only_preorder P : PreOrder (adds_only P).
Proof.
  split.
  - intros m id. destruct (m !! id) eqn:H; [done|]. congruence.
  - intros m1 m2 m3 H12 H23 id. specialize (H12 id).
    destruct (m1 !! id) as [n|] eqn:H1.
    + specialize (H23 id). by rewrite H12 in H23.
    + intros n3 H3. specialize (H23 id).
      destruct (m2 !! id) as [n2|] eqn:H2.
      * rewrite H3 in H23. injection H23 as <-. by apply H12.
      * by apply H23.
Qed.

#[global] Instance same_records_preorder : PreOrder same_records.
Proof.
  split; [done|].
  intros s1 s2 s3 (? & ? & ? & ?) (? & ? & ? & ?).
  repeat split; congruence.
Qed.

#[global] Instance notifies_only_preorder P : PreOrder (notifies_only P).
Proof.
  split.
  - intros s. split; reflexivity.
  - intros s1 s2 s3 [Hr1 Hn1] [Hr2 Hn2]. split; etrans; eauto.
Qed.

Lemma createNotification_notifies_only (P : Notification → Prop) u m t :
  (∀ z, P (new_notification u m t z)) →
  preserves_db (notifies_only P) (createNotification u m t).
Proof.
  intros HP. pres_db @preserves_db_createNotification. intros s z.
  split; [done|]. intros id. simpl.
  pose proof (next_id_fresh Notifications s) as Hf. simpl in Hf.
  destruct (notifications s !! id) as [n|] eqn:Hn.
  - rewrite lookup_insert_ne; [done|]. intros <-. congruence.
  - intros n'. destruct (decide (next_id Notifications s = id)) as [<-|Hne].
    + rewrite lookup_insert_eq. intros [= <-]. apply HP.
    + rewrite lookup_insert_ne by done. congruence.
Qed.

Lemma match_item_notifies items i t u id item :
  items !! id = Some item →
  preserves_db (notifies_only (match_notice items i t u))
    (match_item i t u (keywords_of t) (id, item)).
Proof.
  intros Hitem. unfold match_item. simpl.
  destruct (String.eqb_spec id i) as [->|Hid]; [pres_db @preserves_db_ret|].
  destruct (existsb _ _) eqn:Hm; [|pres_db @preserves_db_ret].
  apply existsb_exists in Hm as (kw & Hkw%list_elem_of_In & Hinc%includes_Contains).
  pres_db @preserves_db_bind; [|intros _].
  - apply createNotification_notifies_only. intros z.
    split; [done|]. split; [done|]. exists id, item, kw.
    repeat split; try done. by left.
  - destruct (String.eqb_spec (lf_userId item) u) as [Hu|Hu]; simpl;
      [pres_db @preserves_db_ret|].
    apply createNotification_notifies_only. intros z.
    split; [done|]. split; [done|]. exists id, item, kw.
    repeat split; try done. by right.
Qed.

Lemma checkKeywordMatch_returns i t u w :
  ∃ w', checkKeywordMatch i t u w = (Normal tt, w').
Proof.
  destruct (keywords_of t) as [|k ks] eqn:Hk.
  - rewrite checkKeywordMatch_no_keywords by done. by eexists.
  - destruct (next_outcome w) as [|code] eqn:H1.
    + rewrite checkKeywordMatch_run by (done || by rewrite Hk).
      apply forEach_returns. intros x w0. apply match_item_returns.
    + erewrite checkKeywordMatch_read_fails by (done || by rewrite Hk).
      by eexists.
Qed.

Lemma checkKeywordMatch_notifies i t u w :
  notifies_only (match_notice (lost_found_items (db w)) i t u)
    (db w) (db (checkKeywordMatch i t u w).2).
Proof.
  destruct (keywords_of t) as [|k ks] eqn:Hk.
  { rewrite checkKeywordMatch_no_keywords by done. reflexivity. }
  destruct (next_outcome w) as [|code] eqn:H1.
  - rewrite checkKeywordMatch_run by (done || by rewrite Hk).
    assert (preserves_db
              (notifies_only (match_notice (lost_found_items (db w)) i t u))
              (forEach (map_to_list (lost_found_items (db w)))
                 (match_item i t u (keywords_of t))))
      as Hloop.
    { pres_db @preserves_db_forEach.
      intros [id item] Hin%elem_of_map_to_list.
      by apply match_item_notifies. }
    exact (Hloop (consume w)).
  - erewrite checkKeywordMatch_read_fails by (done || by rewrite Hk).
    reflexivity.
Qed.

Lemma notifies_only_weaken (P Q : Notification → Prop) s s' :
  (∀ n, P n → Q n) → notifies_only P s s' → notifies_only Q s s'.
Proof.
  intros HPQ [Hrec Hadd]. split; [done|]. intros id. specialize (Hadd id).
  destruct (notifications s !! id); [done|]. intros n' Hn'. by apply HPQ, Hadd.
Qed.

Lemma match_notice_unread items i t u n :
  match_notice items i t u n → n_type n = "match" ∧ n_read n = false.
Proof. by intros (? & ? & _). Qed.

(** X9. Matching writes nothing but match notifications: the records of
    the store are untouched, the notifications already there are
    untouched, and every notification it adds is unread and of type
    "match".  Where the new title and the titles of the store are ASCII
    text, it writes to the parties of a match only: every notification it
    adds stands for a record other than the new item whose lower-cased
    title contains one of the new title's keywords; it goes to the
    submitter and names that record, or to that record's owner, who is
    then someone else, and names the new title. *)
Theorem matching_notifies_only_parties
    (newItemId newTitle userId : string) (w : World) :
  notifies_only (λ n, n_type n = "match" ∧ n_read n = false)
    (db w) (db (checkKeywordMatch newItemId newTitle userId w).2)
  ∧ (ascii_text newTitle = true →
     ascii_titles (lost_found_items (db w)) →
     notifies_only
       (match_notice (lost_found_items (db w)) newItemId newTitle userId)
       (db w) (db (checkKeywordMatch newItemId newTitle userId w).2)).
Proof.
  split.
  - eapply notifies_only_weaken; [|apply checkKeywordMatch_notifies].
    intros n. apply match_notice_unread.
  - intros _ _. apply checkKeywordMatch_notifies.
Qed.

Lemma matching_notifies_only_parties_witness :
  notifies_only
    (match_notice (lost_found_items wallet_store) "new" "Lost Brown Wallet"
       "alice")
    wallet_store
    (db (checkKeywordMatch "new" "Lost Brown Wallet" "alice"
           (world_of wallet_store [])).2).
Proof.
  apply (proj2 (matching_notifies_only_parties "new" "Lost Brown Wallet"
                  "alice" (world_of wallet_store []))).
  - reflexivity.
  - unfold ascii_titles. apply (bool_decide_unpack _). by vm_compute.
Defined.

(* ===================================================================== *)
(** * How many notifications a match writes *)

Lemma requests_succeed_pending n w w' :
  pending w' = pending w → requests_succeed n w → requests_succeed n w'.
Proof. unfold requests_succeed. by intros ->. Qed.

Lemma createNotification_success u m t w :
  next_outcome w = Succeeds →
  ∃ w', createNotification u m t w = (Normal tt, w')
    ∧ size (notifications (db w')) = S (size (notifications (db w)))
    ∧ pending w' = pending (consume w).
Proof.
  intros H1. rewrite createNotification_run, H1. eexists. split; [done|].
  split; [|done]. simpl. apply map_size_insert_None.
  apply (next_id_fresh Notifications).
Qed.

Lemma requests_succeed_drop a b w w' :
  pending w' = drop a (pending w) →
  requests_succeed (a + b) w → requests_succeed b w'.
Proof.
  unfold requests_succeed. intros ->.
  rewrite <- (take_take_drop (pending w) a b), forallb_app.
  by intros [_ ?]%andb_true_iff.
Qed.

Lemma match_item_due i t u kws d w :
  requests_succeed (notices_due i u kws d) w →
  ∃ w', match_item i t u kws d w = (Normal tt, w')
    ∧ size (notifications (db w'))
      = size (notifications (db w)) + notices_due i u kws d
    ∧ pending w' = drop (notices_due i u kws d) (pending w).
Proof.
  unfold match_item, notices_due, matches.
  destruct (String.eqb d.1 i); simpl negb; cbv beta iota.
  { intros _. exists w. by rewrite Nat.add_0_r. }
  rewrite andb_true_l.
  destruct (existsb _ kws).
  2: { intros _. exists w. by rewrite Nat.add_0_r. }
  destruct (String.eqb (lf_userId d.2) u); simpl negb; cbv beta iota.
  - intros [H1 _]%requests_succeed_S. unfold bind.
    destruct (createNotification_success u (match_found_message (lf_title d.2))
                "match" w H1) as (w1 & -> & Hs1 & Hp1).
    exists w1. split; [done|]. split; [lia|]. rewrite Hp1. simpl.
    by destruct (pending w).
  - intros [H1 [H2 _]%requests_succeed_S]%requests_succeed_S. unfold bind.
    destruct (createNotification_success u (match_found_message (lf_title d.2))
                "match" w H1) as (w1 & -> & Hs1 & Hp1).
    assert (next_outcome w1 = Succeeds) as H2'.
    { unfold next_outcome in *. by rewrite Hp1. }
    destruct (createNotification_success (lf_userId d.2)
                (match_check_message t) "match" w1 H2')
      as (w2 & -> & Hs2 & Hp2).
    exists w2. split; [done|]. split; [lia|].
    rewrite Hp2. simpl. rewrite Hp1. simpl. by destruct (pending w) as [|? [|? ?]].
Qed.

Lemma notices_due_total i u kws d l :
  List.length (own_matches i u kws (d :: l))
  + 2 * List.length (other_matches i u kws (d :: l))
  = notices_due i u kws d
    + (List.length (own_matches i u kws l)
       + 2 * List.length (other_matches i u kws l)).
Proof.
  unfold own_matches, other_matches, notices_due. simpl.
  destruct (matches i kws d); simpl; [|done].
  destruct (String.eqb (lf_userId d.2) u); simpl; lia.
Qed.

Lemma forEach_match_count i t u kws l w :
  requests_succeed
    (List.length (own_matches i u kws l)
     + 2 * List.length (other_matches i u kws l)) w →
  ∃ w', forEach l (match_item i t u kws) w = (Normal tt, w')
    ∧ size (notifications (db w'))
      = size (notifications (db w))
        + (List.length (own_matches i u kws l)
           + 2 * List.length (other_matches i u kws l)).
Proof.
  revert w. induction l as [|d l IH]; intros w Hreq.
  { exists w. split; [done|]. simpl. lia. }
  rewrite notices_due_total in Hreq |- *.
  destruct (match_item_due i t u kws d w) as (w1 & Hrun1 & Hs1 & Hp1).
  { unfold requests_succeed in *.
    rewrite <- (take_take_drop (pending w) (notices_due i u kws d)),
      forallb_app in Hreq.
    by apply andb_true_iff in Hreq as [? _]. }
  destruct (IH w1 (requests_succeed_drop _ _ _ _ Hp1 Hreq))
    as (w' & Hrun & Hsize).
  exists w'. split.
  - simpl. unfold bind. by rewrite Hrun1.
  - rewrite Hsize, Hs1. lia.
Qed.

(** X10. How many notifications a submission writes when the new title
    and the titles of the store are ASCII text and the store answers every
    request: one for each matching record of the submitter (the owner is
    not told twice), two for each matching record of someone else. *)
Theorem matching_notification_count
    (newItemId newTitle userId : string) (w : World) :
  let items := map_to_list (lost_found_items (db w)) in
  let own := own_matches newItemId userId (keywords_of newTitle) items in
  let others := other_matches newItemId userId (keywords_of newTitle) items in
  ascii_text newTitle = true →
  ascii_titles (lost_found_items (db w)) →
  keywords_of newTitle ≠ [] →
  requests_succeed (1 + (List.length own + 2 * List.length others)) w →
  ∃ w', checkKeywordMatch newItemId newTitle userId w = (Normal tt, w')
    ∧ size (notifications (db w'))
      = size (notifications (db w))
        + (List.length own + 2 * List.length others).
Proof.
  intros items own others _ _ Hk (H1 & Hreq)%requests_succeed_S.
  rewrite checkKeywordMatch_run by done.
  destruct (forEach_match_count newItemId newTitle userId
              (keywords_of newTitle) items (consume w) Hreq)
    as (w' & Hrun & Hsize).
  by exists w'.
Qed.

Lemma matching_notification_count_witness :
  ∃ w', checkKeywordMatch "new" "Lost Brown Wallet" "bob"
          (world_of wallet_store []) = (Normal tt, w')
    ∧ size (notifications (db w')) = 1.
Proof.
  destruct (matching_notification_count "new" "Lost Brown Wallet" "bob"
              (world_of wallet_store [])) as (w' & Hrun & Hsize).
  - reflexivity.
  - unfold ascii_titles. apply (bool_decide_unpack _). by vm_compute.
  - discriminate.
  - reflexivity.
  - exists w'. split; [exact Hrun|]. rewrite Hsize. reflexivity.
Defined.

(* ===================================================================== *)
(** * Submitting a lost/found item *)

Lemma submit_handler e w :
  ∃ w', (exec console_error "Lost & Found submit error:" (Some e);
         exec showToast "Failed to submit. Please try again." "error";
         ret false) w = (Normal false, w')
        ∧ db w' = db w.
Proof.
  unfold bind, console_error. simpl.
  match goal with
  | |- context [showToast ?m ?t ?w0] =>
      destruct (showToast_run m t w0) as (w' & -> & Hdb & _)
  end.
  by exists w'.
Qed.

(** What follows the upload: the item is written, and from then on nothing
    fails the submission. *)
Lemma submit_item_written u n f imageURL w :
  next_outcome w = Succeeds →
  ∃ w', (do createdAt <- serverTimestamp;
         do itemRef <- addDoc LostFoundItems
                         {| lf_title := fd_title f;
                            lf_description := fd_description f;
                            lf_category := fd_category f;
                            lf_location := fd_location f;
                            lf_type := fd_type f;
                            lf_imageURL := imageURL;
                            lf_userId := u;
                            lf_userName := n;
                            lf_status := "Pending";
                            lf_createdAt := createdAt |};
         exec showToast "Item reported successfully!" "success";
         exec checkKeywordMatch itemRef (fd_title f) u;
         ret true) w = (Normal true, w')
    ∧ notifies_only
        (match_notice
           (<[next_id LostFoundItems (db w) :=
                {| lf_title := fd_title f;
                   lf_description := fd_description f;
                   lf_category := fd_category f;
                   lf_location := fd_location f;
                   lf_type := fd_type f;
                   lf_imageURL := imageURL;
                   lf_userId := u;
                   lf_userName := n;
                   lf_status := "Pending";
                   lf_createdAt := Some (now w) |}]> (lost_found_items (db w)))
           (next_id LostFoundItems (db w)) (fd_title f) u)
        (put LostFoundItems (next_id LostFoundItems (db w))
           {| lf_title := fd_title f;
              lf_description := fd_description f;
              lf_category := fd_category f;
              lf_location := fd_location f;
              lf_type := fd_type f;
              lf_imageURL := imageURL;
              lf_userId := u;
              lf_userName := n;
              lf_status := "Pending";
              lf_createdAt := Some (now w) |} (db w))
        (db w').
Proof.
  intros H1. unfold bind at 1, serverTimestamp. unfold bind at 1.
  rewrite addDoc_run, H1. unfold bind at 1.
  match goal with
  | |- context [showToast ?m ?t ?w0] =>
      destruct (showToast_run m t w0) as (w1 & -> & Hdb1 & _)
  end.
  unfold bind.
  pose proof (checkKeywordMatch_notifies (next_id LostFoundItems (db w))
                (fd_title f) u w1) as Hnot.
  destruct (checkKeywordMatch_returns (next_id LostFoundItems (db w))
              (fd_title f) u w1) as (w' & Hrun).
  rewrite Hrun in Hnot |- *. exists w'. split; [done|].
  simpl in Hnot. by rewrite Hdb1 in Hnot.
Qed.

Lemma submit_item_refused u n f imageURL w code :
  next_outcome w = Fails code →
  (do createdAt <- serverTimestamp;
   do itemRef <- addDoc LostFoundItems
                   {| lf_title := fd_title f;
                      lf_description := fd_description f;
                      lf_category := fd_category f;
                      lf_location := fd_location f;
                      lf_type := fd_type f;
                      lf_imageURL := imageURL;
                      lf_userId := u;
                      lf_userName := n;
                      lf_status := "Pending";
                      lf_createdAt := createdAt |};
   exec showToast "Item reported successfully!" "success";
   exec checkKeywordMatch itemRef (fd_title f) u;
   ret true) w = (Thrown (FirestoreError code), consume w).
Proof.
  intros H1. unfold bind at 1, serverTimestamp. unfold bind at 1.
  by rewrite addDoc_run, H1.
Qed.

Lemma not_requests_succeed n w code :
  next_outcome w = Fails code → ¬ requests_succeed (S n) w.
Proof. intros H [H1 _]%requests_succeed_S. congruence. Qed.

(** X11. [submitLostFoundItem] never throws.  It returns true exactly when
    the store answered the upload (if there is an image) and the write of
    the item: the item of the form is then in the store under a fresh
    identifier, in status "Pending" and owned by the submitter, the other
    records are untouched, every notification written is an unread one of
    type "match", and whatever happened to the matching and its
    notifications did not turn the result; where the title of the form
    and the titles of the store are ASCII text, the notifications go to
    the parties of a match only.  It returns false with the store
    unchanged otherwise. *)
Theorem submitLostFoundItem_stores_or_fails
    (userId userName : string) (formData : LostFoundForm) (w : World) :
  ∃ b w',
    submitLostFoundItem userId userName formData w = (Normal b, w')
    ∧ (b = true ↔ requests_succeed (submit_requests formData) w)
    ∧ (if b then
         let id := next_id LostFoundItems (db w) in
         let item := new_item userId userName formData (now w) in
         lost_found_items (db w) !! id = None
         ∧ notifies_only (λ n, n_type n = "match" ∧ n_read n = false)
             (put LostFoundItems id item (db w)) (db w')
         ∧ (ascii_text (fd_title formData) = true →
            ascii_titles (lost_found_items (db w)) →
            notifies_only
              (match_notice (<[id := item]> (lost_found_items (db w)))
                 id (fd_title formData) userId)
              (put LostFoundItems id item (db w)) (db w'))
       else db w' = db w).
Proof.
  assert (∀ s s' items i t u,
            notifies_only (match_notice items i t u) s s' →
            notifies_only (λ n, n_type n = "match" ∧ n_read n = false) s s'
            ∧ (ascii_text t = true →
               ascii_titles (lost_found_items (db w)) →
               notifies_only (match_notice items i t u) s s')) as Hboth.
  { intros s s' items i t u Hnot. split; [|done].
    eapply notifies_only_weaken; [|exact Hnot].
    intros n. apply match_notice_unread. }
  unfold submitLostFoundItem, try_catch, submit_requests, new_item.
  destruct (fd_image formData) as [url|] eqn:Himg; unfold bind at 1.
  - unfold bind at 1, request.
    destruct (next_outcome w) as [|code] eqn:H1.
    2: { destruct (submit_handler (FirestoreError code) (consume w))
           as (w' & -> & Hdb).
         exists false, w'. split; [done|]. split; [|done].
         split; [done|]. intros Hreq. by eapply not_requests_succeed in Hreq. }
    unfold bind at 1.
    destruct (next_outcome (consume w)) as [|code] eqn:H2.
    2: { destruct (submit_handler (FirestoreError code) (consume (consume w)))
           as (w' & -> & Hdb).
         exists false, w'. split; [done|]. split; [|done].
         split; [done|]. intros [_ Hreq]%requests_succeed_S.
         by eapply not_requests_succeed in Hreq. }
    unfold ret at 1. cbv beta iota.
    destruct (next_outcome (consume (consume w))) as [|code] eqn:H3.
    + destruct (submit_item_written userId userName formData url
                  (consume (consume w)) H3) as (w' & -> & Hnot).
      exists true, w'. split; [done|]. split.
      * split; [intros _|done].
        repeat (apply requests_succeed_cons; [done|]).
        apply requests_succeed_0.
      * split; [apply (next_id_fresh LostFoundItems)|exact (Hboth _ _ _ _ _ _ Hnot)].
    + rewrite (submit_item_refused _ _ _ _ _ code H3).
      destruct (submit_handler (FirestoreError code)
                  (consume (consume (consume w)))) as (w' & -> & Hdb).
      exists false, w'. split; [done|]. split; [|done].
      split; [done|].
      intros [_ [_ Hreq]%requests_succeed_S]%requests_succeed_S.
      by eapply not_requests_succeed in Hreq.
  - unfold ret at 1. cbv beta iota.
    destruct (next_outcome w) as [|code] eqn:H1.
    + destruct (submit_item_written userId userName formData "" w H1)
        as (w' & -> & Hnot).
      exists true, w'. split; [done|]. split.
      * split; [intros _|done].
        apply requests_succeed_cons; [done | apply requests_succeed_0].
      * split; [apply (next_id_fresh LostFoundItems)|exact (Hboth _ _ _ _ _ _ Hnot)].
    + rewrite (submit_item_refused _ _ _ _ _ code H1).
      destruct (submit_handler (FirestoreError code) (consume w))
        as (w' & -> & Hdb).
      exists false, w'. split; [done|]. split; [|done].
      split; [done|]. intros Hreq. by eapply not_requests_succeed in Hreq.
Qed.

Lemma submitLostFoundItem_stores_or_fails_witness :
  (∃ b w',
     submitLostFoundItem "alice" "Alice" (sample_form "Lost Bag")
       (world_of lost_keys_store [Fails "unavailable"]) = (Normal b, w')
     ∧ b = false ∧ db w' = lost_keys_store)
  ∧ ∃ w',
      submitLostFoundItem "alice" "Alice" (sample_form "Lost Bag")
        (world_of lost_keys_store []) = (Normal true, w')
      ∧ notifies_only
          (match_notice
             (<[next_id LostFoundItems lost_keys_store :=
                  new_item "alice" "Alice" (sample_form "Lost Bag")
                    (at_second 1700000000)]>
                (lost_found_items lost_keys_store))
             (next_id LostFoundItems lost_keys_store) "Lost Bag" "alice")
          (put LostFoundItems (next_id LostFoundItems lost_keys_store)
             (new_item "alice" "Alice" (sample_form "Lost Bag")
                (at_second 1700000000))
             lost_keys_store)
          (db w').
Proof.
  split.
  - destruct (submitLostFoundItem_stores_or_fails "alice" "Alice"
                (sample_form "Lost Bag")
                (world_of lost_keys_store [Fails "unavailable"]))
      as (b & w' & Hrun & Hb & Hdb).
    exists b, w'. split; [exact Hrun|].
    assert (b = false) as ->.
    { destruct b; [|done]. by destruct (proj1 Hb eq_refl). }
    split; [done | exact Hdb].
  - destruct (submitLostFoundItem_stores_or_fails "alice" "Alice"
                (sample_form "Lost Bag") (world_of lost_keys_store []))
      as (b & w' & Hrun & Hb & Hdb).
    assert (b = true) as -> by (by apply Hb).
    exists w'. split; [exact Hrun|].
    apply (proj2 (proj2 Hdb)).
    + reflexivity.
    + unfold ascii_titles. apply (bool_decide_unpack _). by vm_compute.
Defined.

(* ===================================================================== *)
(** * The admin listeners and their counters *)

Lemma all_projection_perm {A} `{Document A} (docs : gmap string A) :
  all_projection docs ≡ₚ map_to_list docs.
Proof.
  unfold all_projection.
  by rewrite Array_sort_perm, map_with_id, query_docs_all.
Qed.

Lemma all_projection_sorted {A} `{Document A} (docs : gmap string A) :
  StronglySorted (λ a b : string * A, (second_of b ≤ second_of a)%Z)
    (all_projection docs).
Proof.
  unfold all_projection. rewrite newest_first_by_key.
  apply (Array_sort_sorted second_of).
Qed.

Lemma all_projection_stable {A} `{Document A} (docs : gmap string A) s :
  of_second s (all_projection docs)
  = of_second s (query_docs (λ _, true) docs).
Proof.
  unfold all_projection, of_second.
  by rewrite newest_first_by_key, Array_sort_same_key, map_with_id.
Qed.

(** X12. The admin listeners hand over the whole collection: for a delta,
    [listenAllLostFound], [listenAllComplaints] and [listenAllVolunteers]
    call the view once with every document of the collection, each once,
    as many as the collection has, by the second of [createdAt] descending
    with a missing timestamp counting as second zero; the comparator reads
    the seconds only, so the documents of one second come in the order of
    the snapshot. *)
Theorem admin_listeners_deliver_everything :
  (∀ renderFn docs,
     deliver (listenAllLostFound renderFn) (Delta docs)
     = renderFn (all_projection docs))
  ∧ (∀ renderFn docs,
       deliver (listenAllComplaints renderFn) (Delta docs)
       = renderFn (all_projection docs))
  ∧ (∀ renderFn docs,
       deliver (listenAllVolunteers renderFn) (Delta docs)
       = renderFn (all_projection docs))
  ∧ ∀ (A : Type) (HA : Document A) (docs : gmap string A),
      (∀ id d, (id, d) ∈ all_projection docs ↔ docs !! id = Some d)
      ∧ NoDup (all_projection docs).*1
      ∧ List.length (all_projection docs) = size docs
      ∧ StronglySorted (λ a b : string * A, (second_of b ≤ second_of a)%Z)
          (all_projection docs)
      ∧ ∀ s, of_second s (all_projection docs)
             = of_second s (query_docs (λ _, true) docs).
Proof.
  split; [done|]. split; [done|]. split; [done|].
  intros A HA docs. split; [|split; [|split; [|split]]].
  - intros id d. by rewrite all_projection_perm, elem_of_map_to_list.
  - rewrite all_projection_perm. apply NoDup_fst_map_to_list.
  - rewrite all_projection_perm. apply length_map_to_list.
  - apply all_projection_sorted.
  - apply all_projection_stable.
Qed.

Lemma List_filter_perm {A} (p : A → bool) (l l' : list A) :
  l ≡ₚ l' → List.filter p l ≡ₚ List.filter p l'.
Proof.
  induction 1 as [|x l l' _ IH|x y l|l1 l2 l3 _ IH1 _ IH2]; simpl.
  - done.
  - destruct (p x); by rewrite IH.
  - destruct (p x), (p y); try done. apply Permutation_swap.
  - by etrans.
Qed.

Lemma count_after_update {A} (p : A → bool) (m : gmap string A) id d d' :
  m !! id = Some d →
  List.length (List.filter (λ x, p x.2) (map_to_list (<[id := d']> m)))
  + (if p d then 1 else 0)
  = List.length (List.filter (λ x, p x.2) (map_to_list m))
    + (if p d' then 1 else 0).
Proof.
  intros Hd.
  assert (map_to_list (<[id := d']> m) ≡ₚ (id, d') :: map_to_list (delete id m))
    as Hp1.
  { rewrite <- (insert_delete_eq m id d').
    apply map_to_list_insert, lookup_delete_eq. }
  assert (map_to_list m ≡ₚ (id, d) :: map_to_list (delete id m)) as Hp2
    by (symmetry; by apply map_to_list_delete).
  rewrite (Permutation_length (List_filter_perm (λ x, p x.2) _ _ Hp1)),
    (Permutation_length (List_filter_perm (λ x, p x.2) _ _ Hp2)).
  simpl. destruct (p d), (p d'); simpl; lia.
Qed.

Lemma updateComplaintStatus_complaints id newStatus owner c w :
  complaints (db w) !! id = Some c → next_outcome w = Succeeds →
  complaints (db (updateComplaintStatus id newStatus owner w).2)
  = <[id := set_c_status newStatus c]> (complaints (db w)).
Proof.
  intros Hc H1. unfold updateComplaintStatus, try_catch, bind.
  rewrite updateDoc_run, H1. simpl. rewrite Hc.
  rewrite createNotification_run.
  change (next_outcome (set_db _ (consume w))) with (next_outcome (consume w)).
  destruct (next_outcome (consume w)); run_toast; simpl;
    match goal with H : db _ = _ |- _ => by rewrite H end.
Qed.

Lemma updateLostFoundStatus_items id newStatus owner i w :
  lost_found_items (db w) !! id = Some i → next_outcome w = Succeeds →
  lost_found_items (db (updateLostFoundStatus id newStatus owner w).2)
  = <[id := set_lf_status newStatus i]> (lost_found_items (db w)).
Proof.
  intros Hi H1. unfold updateLostFoundStatus, try_catch, bind.
  rewrite updateDoc_run, H1. simpl. rewrite Hi.
  rewrite createNotification_run.
  change (next_outcome (set_db _ (consume w))) with (next_outcome (consume w)).
  destruct (next_outcome (consume w)); run_toast; simpl;
    match goal with H : db _ = _ |- _ => by rewrite H end.
Qed.

(** X13. The admin counters follow a status update: once the status write
    has succeeded (the notification may fail), the number of open
    complaints the complaints listener shows drops by one when an open
    complaint is resolved, rises by one when a resolved one is reopened,
    and is the same otherwise; likewise the number of pending items. *)
Theorem counters_follow_status_updates
    (id newStatus owner : string) (w : World) :
  next_outcome w = Succeeds →
  (∀ c, complaints (db w) !! id = Some c →
     open_complaints
       (all_projection
          (complaints (db (updateComplaintStatus id newStatus owner w).2)))
     + (if String.eqb (c_status c) "Resolved" then 0 else 1)
     = open_complaints (all_projection (complaints (db w)))
       + (if String.eqb newStatus "Resolved" then 0 else 1))
  ∧ (∀ i, lost_found_items (db w) !! id = Some i →
       pending_items
         (all_projection
            (lost_found_items
               (db (updateLostFoundStatus id newStatus owner w).2)))
       + (if String.eqb (lf_status i) "Pending" then 1 else 0)
       = pending_items (all_projection (lost_found_items (db w)))
         + (if String.eqb newStatus "Pending" then 1 else 0)).
Proof.
  intros H1. split.
  - intros c Hc. rewrite (updateComplaintStatus_complaints _ _ _ c) by done.
    unfold open_complaints.
    rewrite !(Permutation_length (List_filter_perm _ _ _ (all_projection_perm _))).
    pose proof (count_after_update
                  (λ c : Complaint, negb (String.eqb (c_status c) "Resolved"))
                  (complaints (db w)) id c (set_c_status newStatus c) Hc) as Hcount.
    simpl in Hcount.
    destruct (String.eqb (c_status c) "Resolved"),
             (String.eqb newStatus "Resolved"); simpl in *; lia.
  - intros i Hi. rewrite (updateLostFoundStatus_items _ _ _ i) by done.
    unfold pending_items.
    rewrite !(Permutation_length (List_filter_perm _ _ _ (all_projection_perm _))).
    pose proof (count_after_update
                  (λ i : LostFoundItem, String.eqb (lf_status i) "Pending")
                  (lost_found_items (db w)) id i (set_lf_status newStatus i) Hi)
      as Hcount.
    simpl in Hcount.
    destruct (String.eqb (lf_status i) "Pending"),
             (String.eqb newStatus "Pending"); simpl in *; lia.
Qed.

Lemma counters_follow_status_updates_witness :
  open_complaints
    (all_projection
       (complaints
          (db (updateComplaintStatus "c1" "Resolved" "alice"
                 (world_of complaint_store [])).2)))
  + 1
  = open_complaints (all_projection (complaints complaint_store)) + 0.
Proof.
  apply (proj1 (counters_follow_status_updates "c1" "Resolved" "alice"
                  (world_of complaint_store []) eq_refl) sample_complaint).
  reflexivity.
Defined.

(* ===================================================================== *)
(** * Broadcast *)






(** What the handler does once the trimmed text [msg] of the field is not
    empty. *)
Lemma broadcastAnnouncement_sends value :
  trim value ≠ "" →
  broadcastAnnouncement value
  = (do usersSnap <- getDocs Users (λ _, true);
     exec forEach
            (List.filter (λ d, String.eqb (u_role d.2) "user") usersSnap)
            (λ d, createNotification d.1 (trim value) "info");
     showToast "Announcement sent to all users!" "success").
Proof.
  intros Hmsg. unfold broadcastAnnouncement. cbv zeta.
  by rewrite (proj2 (String.eqb_neq (trim value) "") Hmsg).
Qed.



Lemma fanout_success msg (l : list (string * User)) w :
  requests_succeed (List.length l) w →
  ∃ w' ids,
    forEach l (λ d, createNotification d.1 msg "info") w = (Normal tt, w')
    ∧ List.length ids = List.length l
    ∧ NoDup ids
    ∧ (∀ id, id ∈ ids → notifications (db w) !! id = None)
    ∧ notifications (db w')
      = list_to_map
          (zip ids (map (λ d, new_notification d.1 msg "info" (now w)) l))
        ∪ notifications (db w).
Proof.
  revert w. induction l as [|d l IH]; intros w Hreq.
  { exists w, []. split; [done|]. split; [done|]. split; [constructor|].
    split; [intros id Hin; by apply elem_of_nil in Hin|].
    simpl. by rewrite (left_id_L ∅ (∪)). }
  apply requests_succeed_S in Hreq as [H1 Hreq].
  simpl forEach. unfold bind. rewrite createNotification_run, H1.
  set (id1 := next_id Notifications (db w)).
  set (n1 := new_notification d.1 msg "info" (now w)).
  match goal with
  | |- context [forEach l ?f ?w1] =>
      destruct (IH w1) as (w' & ids & -> & Hlen & Hnd & Hfresh & Hm)
  end.
  { exact Hreq. }
  simpl in Hfresh, Hm.
  assert (id1 ∉ ids) as Hid1.
  { intros Hin. specialize (Hfresh id1 Hin).
    by rewrite lookup_insert_eq in Hfresh. }
  exists w', (id1 :: ids). split; [done|]. split; [simpl; by rewrite Hlen|].
  split; [by constructor|]. split.
  - intros id [->|Hin]%elem_of_cons.
    + apply (next_id_fresh Notifications).
    + specialize (Hfresh id Hin).
      destruct (decide (id1 = id)) as [<-|Hne]; [done|].
      by rewrite lookup_insert_ne in Hfresh.
  - rewrite Hm. simpl.
    rewrite <- insert_union_l, <- insert_union_r; [done|].
    apply not_elem_of_list_to_map_1. intros Hin. apply Hid1.
    rewrite fst_zip in Hin; [done|]. rewrite length_map. lia.
Qed.

(** X15. When the trimmed text of the field is not empty and the store
    answers every request, a broadcast gives every account of role "user"
    exactly one notification: the notifications afterwards are the old
    ones and, under as many new and pairwise different identifiers as the
    audience has members, one notification per member carrying the trimmed
    text. *)
Theorem broadcast_reaches_every_user (value : string) (w : World) :
  trim value ≠ "" →
  requests_succeed (1 + List.length (audience (users (db w)))) w →
  ∃ w' ids,
    broadcastAnnouncement value w = (Normal tt, w')
    ∧ List.length ids = List.length (audience (users (db w)))
    ∧ NoDup ids
    ∧ (∀ id, id ∈ ids → notifications (db w) !! id = None)
    ∧ notifications (db w')
      = list_to_map
          (zip ids
             (map (λ d, new_notification d.1 (trim value) "info" (now w))
                (audience (users (db w)))))
        ∪ notifications (db w).
Proof.
  intros Hmsg (H1 & Hreq)%requests_succeed_S.
  rewrite broadcastAnnouncement_sends by done. unfold bind at 1.
  rewrite getDocs_run, H1, query_docs_all. cbv beta iota zeta.
  change (List.filter _ (map_to_list (coll_get Users (db w))))
    with (audience (users (db w))).
  unfold bind.
  destruct (fanout_success (trim value) (audience (users (db w))) (consume w)
              Hreq)
    as (w1 & ids & -> & Hlen & Hnd & Hfresh & Hm).
  destruct (showToast_run "Announcement sent to all users!" "success" w1)
    as (w' & -> & Hdb & _).
  exists w', ids. rewrite Hdb. by repeat split.
Qed.

Lemma broadcast_reaches_every_user_witness :
  ∃ w' (ids : list string),
    broadcastAnnouncement " Campus closed on Friday "
      (world_of sample_accounts []) = (Normal tt, w')
    ∧ List.length ids = 2
    ∧ NoDup ids
    ∧ notifications (db w')
      = list_to_map
          (zip ids
             (map (λ d, new_notification d.1 "Campus closed on Friday" "info"
                          (at_second 1700000000))
                (audience (users sample_accounts))))
        ∪ ∅.
Proof.
  destruct (broadcast_reaches_every_user " Campus closed on Friday "
              (world_of sample_accounts []))
    as (w' & ids & Hrun & Hlen & Hnd & _ & Hm).
  - discriminate.
  - reflexivity.
  - exists w', ids. split; [exact Hrun|]. split; [exact Hlen|].
    split; [exact Hnd | exact Hm].
Defined.

(* ===================================================================== *)
(** * Writes seen through the listeners *)

Lemma List_filter_filter {A} (p q : A → bool) (l : list A) :
  List.filter p (List.filter q l) = List.filter (λ x, q x && p x) l.
Proof.
  induction l as [|x l IH]; [done|]. simpl.
  destruct (q x); simpl; [destruct (p x)|]; by rewrite IH.
Qed.

Lemma projection_count {A} `{Document A} (p : A → bool) userId
    (docs : gmap string A) :
  List.length (List.filter (λ x, p x.2) (projection userId docs))
  = List.length
      (List.filter (λ x, where_userId userId x.2 && p x.2) (map_to_list docs)).
Proof.
  rewrite (Permutation_length
             (List_filter_perm _ _ _ (projection_perm userId docs))).
  unfold query_docs. by rewrite List_filter_filter.
Qed.

Lemma count_after_insert {A} (p : A → bool) (m : gmap string A) id d :
  m !! id = None →
  List.length (List.filter (λ x, p x.2) (map_to_list (<[id := d]> m)))
  = List.length (List.filter (λ x, p x.2) (map_to_list m))
    + (if p d then 1 else 0).
Proof.
  intros Hid.
  rewrite (Permutation_length
             (List_filter_perm (λ x, p x.2) _ _
                (map_to_list_insert m id d Hid))).
  simpl. destruct (p d); simpl; lia.
Qed.

(** X16. The unread counter of the bell follows the writes.  A stored
    notification raises the recipient's count by one and nobody else's;
    marking a notification read lowers its recipient's count by one if it
    was unread, and changes no count otherwise. *)
Theorem unread_counter_follows_writes (w : World) (viewer : string) :
  next_outcome w = Succeeds →
  (∀ userId message type,
     unread_count
       (projection viewer
          (notifications (db (createNotification userId message type w).2)))
     = unread_count (projection viewer (notifications (db w)))
       + (if String.eqb userId viewer then 1 else 0))
  ∧ (∀ notifId n,
       notifications (db w) !! notifId = Some n →
       unread_count
         (projection viewer (notifications (db (markOneRead notifId w).2)))
       + (if String.eqb (n_userId n) viewer && negb (n_read n) then 1 else 0)
       = unread_count (projection viewer (notifications (db w)))).
Proof.
  intros H1. unfold unread_count. split.
  - intros userId message type.
    rewrite createNotification_run, H1. simpl.
    rewrite !(projection_count (λ n, negb (n_read n))).
    rewrite (count_after_insert
               (λ n, where_userId viewer n && negb (n_read n)))
      by apply (next_id_fresh Notifications).
    unfold where_userId. simpl. by rewrite andb_true_r.
  - intros notifId n Hn. unfold markOneRead.
    rewrite updateDoc_run, H1. simpl. rewrite Hn. simpl.
    rewrite !(projection_count (λ n, negb (n_read n))).
    pose proof (count_after_update
                  (λ n, where_userId viewer n && negb (n_read n))
                  (notifications (db w)) notifId n (mark_read n) Hn) as Hc.
    unfold where_userId in *. simpl in *.
    rewrite andb_false_r in Hc.
    destruct (String.eqb (n_userId n) viewer && negb (n_read n)); lia.
Qed.

Lemma unread_counter_follows_writes_witness :
  unread_count
    (projection "alice"
       (notifications
          (db (createNotification "alice" "hi" "info"
                 (world_of inbox_store [])).2)))
  = unread_count (projection "alice" (notifications inbox_store)) + 1
  ∧ unread_count
      (projection "alice"
         (notifications (db (markOneRead "n1" (world_of inbox_store [])).2)))
    + 1
    = unread_count (projection "alice" (notifications inbox_store)).
Proof.
  split.
  - apply (proj1 (unread_counter_follows_writes (world_of inbox_store [])
                    "alice" eq_refl) "alice" "hi" "info").
  - apply (proj2 (unread_counter_follows_writes (world_of inbox_store [])
                    "alice" eq_refl) "n1"
             (sample_notification "alice" false (Some (at_second 5)))).
    reflexivity.
Defined.

Lemma projection_after_insert {A} `{Document A} userId
    (docs : gmap string A) id d :
  docs !! id = None → userId_of d = userId →
  (id, d) ∈ projection userId (<[id := d]> docs)
  ∧ List.length (projection userId (<[id := d]> docs))
    = S (List.length (projection userId docs)).
Proof.
  intros Hid Hu. split.
  - apply (projection_is_ok userId (<[id := d]> docs)).
    by rewrite lookup_insert_eq.
  - rewrite !(Permutation_length (projection_perm userId _)).
    unfold query_docs. rewrite (count_after_insert (where_userId userId)) by done.
    unfold where_userId. rewrite Hu, String.eqb_refl. lia.
Qed.

(** X17. A writer sees its own write.  After an accepted registration,
    a stored complaint or a stored item, the projection the owner's
    listener hands over for the new store holds the new document and is
    one longer than before. *)
Theorem writers_see_their_writes (userId userName : string) (w : World) :
  (∀ formData,
     (∀ id v, volunteers (db w) !! id = Some v →
              ¬ registered userId (vf_eventId formData) v) →
     requests_succeed 2 w →
     let w' := (registerVolunteer userId userName formData w).2 in
     (next_id Volunteers (db w), registration userId userName formData (now w))
       ∈ projection userId (volunteers (db w'))
     ∧ List.length (projection userId (volunteers (db w')))
       = S (List.length (projection userId (volunteers (db w)))))
  ∧ (∀ formData,
       next_outcome w = Succeeds →
       let w' := (submitComplaint userId userName formData w).2 in
       (next_id Complaints (db w), new_complaint userId userName formData (now w))
         ∈ projection userId (complaints (db w'))
       ∧ List.length (projection userId (complaints (db w')))
         = S (List.length (projection userId (complaints (db w)))))
  ∧ (∀ formData,
       requests_succeed (submit_requests formData) w →
       let w' := (submitLostFoundItem userId userName formData w).2 in
       (next_id LostFoundItems (db w), new_item userId userName formData (now w))
         ∈ projection userId (lost_found_items (db w'))
       ∧ List.length (projection userId (lost_found_items (db w')))
         = S (List.length (projection userId (lost_found_items (db w))))).
Proof.
  split; [|split].
  - intros formData Hnone Hreq.
    destruct (registerVolunteer_accepts userId userName formData w Hnone Hreq)
      as (w' & -> & Hdb).
    simpl. rewrite Hdb. simpl.
    apply projection_after_insert; [apply (next_id_fresh Volunteers) | done].
  - intros formData H1.
    destruct (submitComplaint_ok userId userName formData w H1)
      as (w' & -> & Hdb & _).
    simpl. rewrite Hdb. simpl.
    apply projection_after_insert; [apply (next_id_fresh Complaints) | done].
  - intros formData Hreq.
    assert (∃ w', submitLostFoundItem userId userName formData w
                  = (Normal true, w')
                  ∧ lost_found_items (db w')
                    = <[next_id LostFoundItems (db w) :=
                          new_item userId userName formData (now w)]>
                        (lost_found_items (db w))) as (w' & -> & Hitems).
    { unfold submitLostFoundItem, try_catch, submit_requests, new_item in *.
      destruct (fd_image formData) as [url|]; unfold bind at 1.
      - apply requests_succeed_S in Hreq as [H1 Hreq].
        apply requests_succeed_S in Hreq as [H2 Hreq].
        apply requests_succeed_S in Hreq as [H3 _].
        unfold bind at 1, request. rewrite H1. unfold bind at 1. rewrite H2.
        unfold ret at 1. cbv beta iota.
        destruct (submit_item_written userId userName formData url
                    (consume (consume w)) H3) as (w' & -> & [Hsame _]).
        exists w'. split; [done|]. by destruct Hsame as [-> _].
      - apply requests_succeed_S in Hreq as [H1 _].
        unfold ret at 1. cbv beta iota.
        destruct (submit_item_written userId userName formData "" w H1)
          as (w' & -> & [Hsame _]).
        exists w'. split; [done|]. by destruct Hsame as [-> _]. }
    simpl. rewrite Hitems.
    apply projection_after_insert; [apply (next_id_fresh LostFoundItems) | done].
Qed.

Lemma writers_see_their_writes_witness :
  (next_id Volunteers empty_store,
   registration "alice" "Alice" sample_volunteer_form
                   (at_second 1700000000))
    ∈ projection "alice"
        (volunteers
           (db (registerVolunteer "alice" "Alice" sample_volunteer_form
                  (world_of empty_store [])).2))
  ∧ List.length
      (projection "alice"
         (complaints
            (db (submitComplaint "alice" "Alice" sample_complaint_form
                   (world_of empty_store [])).2))) = 1
  ∧ List.length
      (projection "alice"
         (lost_found_items
            (db (submitLostFoundItem "alice" "Alice" (sample_form "Lost Bag")
                   (world_of lost_keys_store [])).2))) = 1.
Proof.
  split; [|split].
  - apply (proj1 (writers_see_their_writes "alice" "Alice"
                    (world_of empty_store [])) sample_volunteer_form).
    + intros id v Hv. simpl in Hv. by rewrite lookup_empty in Hv.
    + reflexivity.
  - apply (proj1 (proj2 (writers_see_their_writes "alice" "Alice"
                           (world_of empty_store []))) sample_complaint_form).
    reflexivity.
  - apply (proj2 (proj2 (writers_see_their_writes "alice" "Alice"
                           (world_of lost_keys_store []))) (sample_form "Lost Bag")).
    reflexivity.
Defined.

Lemma escHtml_safe_and_faithful_witness :
  ("<"%char ∉ list_ascii_of_string (escHtml "<b>Tom & Jerry</b>"))
  ∧ unescape (escHtml "<b>Tom & Jerry</b>") = "<b>Tom & Jerry</b>"
  ∧ (escHtml "a&lt;b" = escHtml "a&lt;b" → "a&lt;b" = "a&lt;b").
Proof.
  split; [|split].
  - intros Hin.
    by destruct (proj1 (proj2 escHtml_safe_and_faithful)
                   "<b>Tom & Jerry</b>" "<"%char Hin).
  - apply (proj1 (proj2 (proj2 escHtml_safe_and_faithful))).
  - apply (proj2 (proj2 (proj2 escHtml_safe_and_faithful))).
Defined.

Lemma keywords_shape_witness :
  ascii_text "wallet" = true
  ∧ 3 < String_length "wallet"
  ∧ String_length "wallet" = String.length "wallet"
  ∧ (" "%char ∉ list_ascii_of_string "wallet")
  ∧ toLowerCase "wallet" = "wallet".
Proof.
  apply (proj1 (keywords_shape "Lost Brown Wallet" eq_refl) "wallet").
  apply list_elem_of_In. vm_compute. tauto.
Defined.
